(** * Contextual bandits with a policy-gradient agent

    A shallow embedding of the notebook [tfrl_part1.1.ipynb]: the class
    [contextual_bandit], the class [agent] (a one-layer sigmoid network and
    its gradient-descent training operation), the training loop and the final
    summary loop.

    Numbers.  The notebook computes with IEEE floats ([float32] inside the
    TensorFlow graph, [float64] in numpy).  The embedding idealises them to
    the real numbers [R] of the Standard Library.  A second embedding of the
    graph, over the binary32 numbers of [SpecFloat], shows where the floats
    leave the idealisation: an activation that rounds to 0 or to 1, a
    gradient that is infinite or not a number.  What is stated of a gradient
    step is therefore stated for the passes of the training run, where the
    rewards are 1 or -1 and the weights stay within 10 of their initial
    value.  Python integers are [Z]; array indices are [nat] where the
    notebook produces them itself, and [Z] where numpy's negative indices
    matter.

    Randomness.  Each call to [np.random] is modelled by a value handed in
    from outside: the draws of one episode are a record [draws], and the
    training loop reads them from a function of the episode counter.

    Exceptions.  An indexing error of numpy or TensorFlow is the result
    [Raised]; the training loop stops at the first one. *)

From Stdlib Require Import String Ascii DecimalString DecimalNat.
From Stdlib Require Import Reals Lra Lia ZArith Arith Bool List.
From Stdlib Require Import SpecFloat.
Import ListNotations.

Open Scope R_scope.

(** ** Results of fallible operations *)

Inductive error : Set :=
| IndexError        (* numpy: index out of bounds *)
| ValueError        (* numpy: argmax/argmin of an empty sequence *)
| InvalidArgument   (* TensorFlow: slice or feed out of range *)
| NameError.        (* Python: name is not defined *)

Inductive result (A : Type) : Type :=
| Ok (a : A)
| Raised (e : error).

Arguments Ok {A} a.
Arguments Raised {A} e.

Definition bind {A B : Type} (m : result A) (k : A -> result B) : result B :=
  match m with
  | Ok a => k a
  | Raised e => Raised e
  end.

Notation "x <- m ;; k" := (bind m (fun x => k))
  (at level 61, m at next level, right associativity).

Definition of_option {A : Type} (e : error) (o : option A) : result A :=
  match o with
  | Some a => Ok a
  | None => Raised e
  end.

(** ** Vectors and matrices *)

Definition vector := list R.
Definition matrix := list (list R).

(** numpy's [shape] of a rectangular two-dimensional array. *)
Definition has_shape (n m : nat) (W : matrix) : Prop :=
  length W = n /\ Forall (fun row => length row = m) W.

(** [W[i, j]], with an [IndexError] outside the array. *)
Definition index2 (W : matrix) (i j : nat) : result R :=
  row <- of_option IndexError (nth_error W i) ;;
  of_option IndexError (nth_error row j).

(** Total reading of an entry, for statements ([0] outside the array). *)
Definition entry (W : matrix) (i j : nat) : R := nth j (nth i W []) 0.

Fixpoint map2 {A B C : Type} (f : A -> B -> C) (l : list A) (l' : list B)
  : list C :=
  match l, l' with
  | a :: t, b :: t' => f a b :: map2 f t t'
  | _, _ => []
  end.

(** [np.zeros([n, m])] and [tf.ones_initializer()] on shape [(n, m)]. *)
Definition full (n m : nat) (c : R) : matrix := repeat (repeat c m) n.

Definition Rsum (l : list R) : R := fold_right Rplus 0 l.

(** ** argmax and argmin

    [np.argmax], [np.argmin] and [tf.argmax] scan from the left and keep the
    first extremal position.  [arg_from better bi b i l] continues a scan
    whose best value so far is [b] at position [bi]; [i] is the position of
    the head of [l]. *)

Definition Rltb (x y : R) : bool := if Rlt_dec x y then true else false.

Fixpoint arg_from (better : R -> R -> bool) (bi : nat) (b : R) (i : nat)
  (l : list R) : nat :=
  match l with
  | [] => bi
  | x :: t =>
      if better x b then arg_from better i x (S i) t
      else arg_from better bi b (S i) t
  end.

Definition arg_ext (better : R -> R -> bool) (l : list R) : result nat :=
  match l with
  | [] => Raised ValueError
  | x :: t => Ok (arg_from better 0%nat x 1%nat t)
  end.

(** [gt_max x b]: [x] replaces the running maximum [b];
    [lt_min x b]: [x] replaces the running minimum [b]. *)
Definition gt_max (x b : R) : bool := Rltb b x.
Definition lt_min (x b : R) : bool := Rltb x b.

Definition argmax : list R -> result nat := arg_ext gt_max.
Definition argmin : list R -> result nat := arg_ext lt_min.

(** ** The sigmoid *)

Definition sigmoid (x : R) : R := 1 / (1 + exp (- x)).


(** ** The environment: class [contextual_bandit] *)

Record contextual_bandit : Type := {
  state : nat;          (* self.state *)
  bandits : matrix;     (* self.bandits *)
  num_bandits : nat;    (* self.num_bandits *)
  num_actions : nat     (* self.num_actions *)
}.

(** The array literal of [__init__]; [-0.0] is the real [0]. *)
Definition bandit_table : matrix :=
  [ [0.2; 0; 0; -5];
    [0.1; -5; 1; 0.25];
    [-5; 5; 5; 5] ].

(** [contextual_bandit()].  [shape[1]] is the length of the rows. *)
Definition contextual_bandit_init : contextual_bandit :=
  {| state := 0;
     bandits := bandit_table;
     num_bandits := length bandit_table;
     num_actions := length (hd [] bandit_table) |}.

(** [getBandit]: [randint] is the value drawn by
    [np.random.randint(0, len(self.bandits))]; it is stored in [self.state]
    and returned. *)
Definition getBandit (self : contextual_bandit) (randint : nat)
  : contextual_bandit * nat :=
  ({| state := randint;
      bandits := bandits self;
      num_bandits := num_bandits self;
      num_actions := num_actions self |}, randint).

(** [pullArm]: [randn] is the value drawn by [np.random.randn(1)].  The row
    of the table is the one of [self.state]. *)
Definition pullArm (self : contextual_bandit) (action : nat) (randn : R)
  : result Z :=
  bandit <- index2 (bandits self) (state self) action ;;
  if Rltb bandit randn then Ok 1%Z else Ok (-1)%Z.


(** numpy's reading of one Python integer index into an axis of length [n]:
    the indices [0 .. n-1] are themselves, the indices [-n .. -1] count from
    the end, every other index is an [IndexError]. *)
Definition np_axis (n : nat) (i : Z) : result nat :=
  if ((0 <=? i) && (i <? Z.of_nat n))%Z then Ok (Z.to_nat i)
  else if ((- Z.of_nat n <=? i) && (i <? 0))%Z
       then Ok (Z.to_nat (i + Z.of_nat n))
       else Raised IndexError.

(** [W[i, j]] for arbitrary Python integers [i] and [j]. *)
Definition index2_int (W : matrix) (i j : Z) : result R :=
  r <- np_axis (length W) i ;;
  row <- of_option IndexError (nth_error W r) ;;
  c <- np_axis (length row) j ;;
  of_option IndexError (nth_error row c).

(** The body of [pullArm] with the stored state and the action as arbitrary
    Python integers, [table] being [self.bandits]. *)
Definition pullArm_int (table : matrix) (state0 action : Z) (randn : R)
  : result Z :=
  bandit <- index2_int table state0 action ;;
  if Rltb bandit randn then Ok 1%Z else Ok (-1)%Z.

(** ** The agent: class [agent]

    The graph built by [__init__] has one trainable variable, the weight
    matrix of [slim.fully_connected] (no bias), of shape [(s_size, a_size)],
    initialised to ones.  The record holds the constructor's arguments and
    the current value of that variable. *)

Record agent : Type := {
  lr : R;
  s_size : nat;
  a_size : nat;
  weights : matrix
}.

(** [agent(lr, s_size, a_size)] followed by
    [sess.run(tf.global_variables_initializer())]. *)
Definition agent_init (lr0 : R) (s_size0 a_size0 : nat) : agent :=
  {| lr := lr0; s_size := s_size0; a_size := a_size0;
     weights := full s_size0 a_size0 1 |}.

(** [slim.one_hot_encoding]: one row of length [n]; an index outside
    [0 .. n-1] gives the zero row. *)
Definition one_hot (s n : nat) : vector :=
  map (fun k => if Nat.eqb k s then 1 else 0) (seq 0 n).

(** The product of a row vector [x] with a matrix [W] of [m] columns. *)
Definition vecmat (x : vector) (W : matrix) (m : nat) : vector :=
  map (fun j => Rsum (map2 (fun xk row => xk * nth j row 0) x W)) (seq 0 m).

(** [self.output]: the activations [sigmoid(one_hot(state) @ weights)],
    reshaped to a vector of length [a_size]. *)
Definition output (self : agent) (state_in : nat) : vector :=
  map sigmoid (vecmat (one_hot state_in (s_size self)) (weights self)
                 (a_size self)).

(** [self.chosen_action = tf.argmax(self.output, 0)]. *)
Definition chosen_action (self : agent) (state_in : nat) : result nat :=
  argmax (output self state_in).


(** [self.output] and [self.chosen_action] with the activation function of
    the layer left open: [output] is [output_with sigmoid].  The float32
    kernel of [tf.nn.sigmoid] is one such function. *)
Definition output_with (act : R -> R) (self : agent) (state_in : nat)
  : vector :=
  map act (vecmat (one_hot state_in (s_size self)) (weights self)
             (a_size self)).

Definition chosen_action_with (act : R -> R) (self : agent) (state_in : nat)
  : result nat :=
  argmax (output_with act self state_in).

(** [self.responsible_weight = tf.slice(self.output, self.action_holder, [1])];
    the slice must lie inside the vector. *)
Definition responsible_weight (self : agent) (state_in action_holder : nat)
  : result R :=
  of_option InvalidArgument (nth_error (output self state_in) action_holder).

(** [self.loss = -(tf.log(self.responsible_weight) * self.reward_holder)]. *)
Definition loss (self : agent) (state_in action_holder : nat)
  (reward_holder : R) : result R :=
  rw <- responsible_weight self state_in action_holder ;;
  Ok (- (ln rw * reward_holder)).

(** The gradient of the loss with respect to [self.output], by the gradient
    functions of the operations from the loss back to the slice: [Neg]
    negates the incoming gradient, [Mul] multiplies it by the other factor,
    [Log] by the reciprocal of its input, and [Slice] pads with zeros. *)
Definition grad_output (y : vector) (action_holder : nat) (reward_holder : R)
  : vector :=
  let g_neg := - 1 in
  let g_log := g_neg * reward_holder in
  let g_rw := g_log * / nth action_holder y 0 in
  map (fun j => if Nat.eqb j action_holder then g_rw else 0)
      (seq 0 (length y)).

(** The gradient with respect to the weight matrix: [SigmoidGrad] is
    [dy * y * (1 - y)], and [MatMul] gives the outer product of the input
    row with the gradient of the pre-activations. *)
Definition grad_weights (self : agent) (state_in action_holder : nat)
  (reward_holder : R) : matrix :=
  let x := one_hot state_in (s_size self) in
  let y := output self state_in in
  let g_y := grad_output y action_holder reward_holder in
  let g_z := map2 (fun gj yj => gj * yj * (1 - yj)) g_y y in
  map (fun xk => map (fun gj => xk * gj) g_z) x.

(** [ApplyGradientDescent]: [var -= lr * grad], entry by entry. *)
Definition apply_gradient_descent (alpha : R) (W G : matrix) : matrix :=
  map2 (map2 (fun w g => w - alpha * g)) W G.

(** [self.update = optimizer.minimize(self.loss)], run once with the feeds
    [state_in], [action_holder] and [reward_holder]. *)
Definition update (self : agent) (state_in action_holder : nat)
  (reward_holder : R) : result agent :=
  _ <- loss self state_in action_holder reward_holder ;;
  Ok {| lr := lr self; s_size := s_size self; a_size := a_size self;
        weights := apply_gradient_descent (lr self) (weights self)
                     (grad_weights self state_in action_holder
                        reward_holder) |}.


(** ** The graph in binary32

    The TensorFlow graph computes in [float32].  This part embeds the same
    graph over the binary32 numbers of [SpecFloat] (precision 24, exponent
    bound 128), with their infinities and NaN, for the inputs on which the
    floats and their idealisation to [R] disagree: an activation that rounds
    to 0 or to 1, a gradient that is infinite.  Multiplication, addition,
    subtraction and division are the IEEE operations; the sigmoid kernel is
    taken as the real sigmoid rounded to the nearest binary32 number. *)

Definition f32 : Set := spec_float.
Definition vector32 : Set := list f32.
Definition matrix32 : Set := list (list f32).

Definition f32_mul : f32 -> f32 -> f32 := SFmul 24 128.
Definition f32_add : f32 -> f32 -> f32 := SFadd 24 128.

(** The binary32 number nearest to an integer. *)
Definition f32_of_Z (z : Z) : f32 := binary_normalize 24 128 z 0 false.
Definition f32_zero : f32 := S754_zero false.
Definition f32_one : f32 := f32_of_Z 1.


(** The real number a finite binary32 number stands for. *)
Definition SF2R (x : f32) : R :=
  match x with
  | S754_finite s m e => (if s then -1 else 1) * IZR (Zpos m) * powerRZ 2 e
  | _ => 0
  end.

(** Rounding of a real to the nearest binary32 number, ties to even: the
    exponent is that of the binade of [y], not below the subnormal exponent
    -149; [binary_normalize] makes the result canonical and turns an
    overflow into an infinity. *)
Definition ilog2 (y : R) : Z := Int_part (ln y / ln 2).

Definition Znearest_even (x : R) : Z :=
  let f := Int_part x in
  if Rlt_dec (x - IZR f) (1 / 2) then f
  else if Rlt_dec (1 / 2) (x - IZR f) then (f + 1)%Z
  else if Z.even f then f else (f + 1)%Z.

Definition round32_pos (y : R) : f32 :=
  let e := Z.max (ilog2 y - 23) (-149) in
  binary_normalize 24 128 (Znearest_even (y * powerRZ 2 (- e))) e false.

Definition round32 (y : R) : f32 :=
  if Rlt_dec 0 y then round32_pos y
  else if Rlt_dec y 0 then SFopp (round32_pos (- y))
  else f32_zero.

(** [tf.nn.sigmoid] on a [float32]. *)
Definition sigmoid32 (x : f32) : f32 :=
  match x with
  | S754_nan => S754_nan
  | S754_infinity false => f32_one
  | S754_infinity true => f32_zero
  | _ => round32 (sigmoid (SF2R x))
  end.

Definition one_hot32 (s n : nat) : vector32 :=
  map (fun k => if Nat.eqb k s then f32_one else f32_zero) (seq 0 n).

Definition sum32 (l : list f32) : f32 := fold_left f32_add l f32_zero.

Definition vecmat32 (x : vector32) (W : matrix32) (m : nat) : vector32 :=
  map (fun j =>
         sum32 (map2 (fun xk row => f32_mul xk (nth j row f32_zero)) x W))
      (seq 0 m).

(** [self.output] for the weight matrix [W] of shape [(s_size, a_size)]. *)
Definition output32 (s_size0 a_size0 : nat) (W : matrix32) (state_in : nat)
  : vector32 :=
  map sigmoid32 (vecmat32 (one_hot32 state_in s_size0) W a_size0).

Fixpoint arg_from32 (bi : nat) (b : f32) (i : nat) (l : list f32) : nat :=
  match l with
  | [] => bi
  | x :: t =>
      if SFltb b x then arg_from32 i x (S i) t
      else arg_from32 bi b (S i) t
  end.

Definition argmax32 (l : list f32) : result nat :=
  match l with
  | [] => Raised ValueError
  | x :: t => Ok (arg_from32 0 x 1 t)
  end.

(** [self.chosen_action]. *)
Definition chosen_action32 (s_size0 a_size0 : nat) (W : matrix32)
  (state_in : nat) : result nat :=
  argmax32 (output32 s_size0 a_size0 W state_in).






(** ** The training cell *)

(** What one pass through the loop body takes from outside: the four values
    drawn from [np.random] ([randint_action] is consumed only on the
    exploring branch), and whether the value of [weights] fetched by
    [sess.run([myAgent.update, weights])] is read after or before the update
    is applied (TensorFlow does not order the two fetches). *)
Record draws : Type := {
  randint_bandit : nat;     (* np.random.randint(0, len(self.bandits)) *)
  rand_explore : R;         (* np.random.rand(1) *)
  randint_action : nat;     (* np.random.randint(cBandit.num_actions) *)
  randn_reward : R;         (* np.random.randn(1) *)
  fetch_after_update : bool
}.

(** What numpy promises about the draws: [randint(0, n)] and [randint(n)]
    are in [0 .. n-1], [rand] is in the half-open interval from 0 to 1. *)
Definition draws_ok (self : contextual_bandit) (d : draws) : Prop :=
  (randint_bandit d < length (bandits self))%nat /\
  (randint_action d < num_actions self)%nat /\
  0 <= rand_explore d < 1.

(** A line written by [print]: plain text, or text followed by numpy's
    rendering of an array of floats (kept as the array). *)
Inductive line : Type :=
| Text (t : string)
| TextArray (t : string) (arr : vector).

(** [str] of a non-negative integer. *)
Definition str (n : nat) : string := NilZero.string_of_uint (Nat.to_uint n).

(** The variables of the notebook after cell 4; [None] is a name that is not
    bound yet. *)
Record notebook : Type := {
  cBandit : contextual_bandit;
  myAgent : agent;
  total_episodes : Z;
  total_reward : matrix;
  eps : R;
  var_i : Z;
  var_s : option nat;
  var_action : option nat;
  var_reward : option Z;
  ww : option matrix;
  stdout : list line
}.

(** Cell 4, and [sess.run(init)], [i = 0] of cell 5. *)
Definition notebook_init : notebook :=
  let cB := contextual_bandit_init in
  {| cBandit := cB;
     myAgent := agent_init 0.001 (num_bandits cB) (num_actions cB);
     total_episodes := 10000;
     total_reward := full (num_bandits cB) (num_actions cB) 0;
     eps := 0.1;
     var_i := 0;
     var_s := None; var_action := None; var_reward := None; ww := None;
     stdout := [] |}.

(** The choice between a random action and the one of the network. *)
Definition select_action (nb : notebook) (s : nat) (d : draws) : result nat :=
  if Rltb (rand_explore d) (eps nb) then Ok (randint_action d)
  else chosen_action (myAgent nb) s.

(** [W[i, j] += v]. *)
Definition add_at (W : matrix) (i j : nat) (v : R) : result matrix :=
  row <- of_option IndexError (nth_error W i) ;;
  w <- of_option IndexError (nth_error row j) ;;
  Ok (firstn i W ++
      (firstn j row ++ (w + v) :: skipn (S j) row) :: skipn (S i) W).

(** [np.mean(total_reward, axis=1)]. *)
Definition row_means (W : matrix) : vector :=
  map (fun row => Rsum row / INR (length row)) W.

(** [print(l)]. *)
Definition print (l : line) (nb : notebook) : notebook :=
  {| cBandit := cBandit nb; myAgent := myAgent nb;
     total_episodes := total_episodes nb;
     total_reward := total_reward nb; eps := eps nb; var_i := var_i nb;
     var_s := var_s nb; var_action := var_action nb;
     var_reward := var_reward nb; ww := ww nb;
     stdout := stdout nb ++ [l] |}.

(** The text of the diagnostic line and the array printed after it. *)
Definition mean_reward_line (nb : notebook) : line :=
  TextArray ("Mean reward for each of the "
             ++ str (num_bandits (cBandit nb)) ++ " bandits: ")
            (row_means (total_reward nb)).

(** The diagnostic [print] guarded by [i % 500 == 0]. *)
Definition diagnostic (nb : notebook) : notebook :=
  if (var_i nb mod 500 =? 0)%Z then print (mean_reward_line nb) nb else nb.

(** [i += 1]. *)
Definition incr_i (nb : notebook) : notebook :=
  {| cBandit := cBandit nb; myAgent := myAgent nb;
     total_episodes := total_episodes nb;
     total_reward := total_reward nb; eps := eps nb;
     var_i := (var_i nb + 1)%Z;
     var_s := var_s nb; var_action := var_action nb;
     var_reward := var_reward nb; ww := ww nb;
     stdout := stdout nb |}.

(** The body of the [while] loop. *)
Definition episode (d : draws) (nb : notebook) : result notebook :=
  let (cB, s) := getBandit (cBandit nb) (randint_bandit d) in
  action <- select_action nb s d ;;
  reward <- pullArm cB action (randn_reward d) ;;
  ag <- update (myAgent nb) s action (IZR reward) ;;
  let fetched :=
    if fetch_after_update d then weights ag else weights (myAgent nb) in
  tr <- add_at (total_reward nb) s action (IZR reward) ;;
  Ok (incr_i (diagnostic
        {| cBandit := cB; myAgent := ag;
           total_episodes := total_episodes nb; total_reward := tr;
           eps := eps nb; var_i := var_i nb;
           var_s := Some s; var_action := Some action;
           var_reward := Some reward; ww := Some fetched;
           stdout := stdout nb |})).

(** [while i < total_episodes: ...], with the draws of the pass at counter
    [i] given by [rng i].  [None] means the fuel ran out. *)
Fixpoint training_loop (fuel : nat) (rng : Z -> draws) (nb : notebook)
  : option (result notebook) :=
  match fuel with
  | O => None
  | S fuel' =>
      if (var_i nb <? total_episodes nb)%Z then
        match episode (rng (var_i nb)) nb with
        | Ok nb' => training_loop fuel' rng nb'
        | Raised e => Some (Raised e)
        end
      else Some (Ok nb)
  end.

(** The first [k] passes through the loop body. *)
Fixpoint episodes (k : nat) (rng : Z -> draws) (nb : notebook)
  : result notebook :=
  match k with
  | O => Ok nb
  | S k' => nb' <- episodes k' rng nb ;; episode (rng (var_i nb')) nb'
  end.

(** ** The summary cell *)

(** One pass through the body of [for a in range(cBandit.num_bandits)]. *)
Definition summary_row (cB : contextual_bandit) (w : matrix) (a : nat)
  : result (list line) :=
  wrow <- of_option IndexError (nth_error w a) ;;
  k <- argmax wrow ;;
  let announce :=
    Text ("The agent thinks action " ++ str (k + 1) ++ " for bandit "
          ++ str (a + 1) ++ " is the most promising....") in
  k' <- argmax wrow ;;
  brow <- of_option IndexError (nth_error (bandits cB) a) ;;
  best <- argmin brow ;;
  if Nat.eqb k' best then Ok [announce; Text "...and it was right!"]
  else Ok [announce; Text "...and it was wrong!"].

Fixpoint summary_loop (cB : contextual_bandit) (w : matrix) (range : list nat)
  : result (list line) :=
  match range with
  | [] => Ok []
  | a :: rest =>
      ls <- summary_row cB w a ;;
      more <- summary_loop cB w rest ;;
      Ok (ls ++ more)
  end.

(** Cell 6 on the variables left by the training cell; [ww] must be bound. *)
Definition summary (nb : notebook) : result (list line) :=
  w <- of_option NameError (ww nb) ;;
  summary_loop (cBandit nb) w (seq 0 (num_bandits (cBandit nb))).

(** * Vocabulary of the statements *)

(** [k] is the first position of a largest entry of [l]. *)
Definition first_max (l : list R) (k : nat) : Prop :=
  (k < length l)%nat /\
  (forall j, (j < length l)%nat -> nth j l 0 <= nth k l 0) /\
  (forall j, (j < k)%nat -> nth j l 0 < nth k l 0).

(** [k] is the first position of a smallest entry of [l]. *)
Definition first_min (l : list R) (k : nat) : Prop :=
  (k < length l)%nat /\
  (forall j, (j < length l)%nat -> nth k l 0 <= nth j l 0) /\
  (forall j, (j < k)%nat -> nth k l 0 < nth j l 0).

(** The weight variable has the shape the constructor gave it. *)
Definition agent_wf (ag : agent) : Prop :=
  has_shape (s_size ag) (a_size ag) (weights ag).

(** The table is rectangular with the recorded numbers of rows and columns. *)
Definition bandit_wf (self : contextual_bandit) : Prop :=
  has_shape (num_bandits self) (num_actions self) (bandits self).

(** The operation as the specification words it, [pull(state, action)]: the
    state is an argument, next to the action. *)
Definition pull_spec (table : matrix) (state0 action : nat) (randn : R)
  : result Z :=
  threshold <- index2 table state0 action ;;
  if Rltb threshold randn then Ok 1%Z else Ok (-1)%Z.

(** What holds of the notebook's variables before and after every pass. *)
Record notebook_inv (nb : notebook) : Prop := {
  inv_table : bandits (cBandit nb) = bandit_table;
  inv_num_bandits : num_bandits (cBandit nb) = 3%nat;
  inv_num_actions : num_actions (cBandit nb) = 4%nat;
  inv_agent : agent_wf (myAgent nb);
  inv_s_size : s_size (myAgent nb) = 3%nat;
  inv_a_size : a_size (myAgent nb) = 4%nat;
  inv_lr : lr (myAgent nb) = 0.001;
  inv_total_reward : has_shape 3 4 (total_reward nb);
  inv_eps : eps nb = 0.1;
  inv_total_episodes : total_episodes nb = 10000%Z;
  inv_ww : forall w, ww nb = Some w -> has_shape 3 4 w
}.

(** Every pass receives draws that numpy can produce. *)
Definition rng_ok (rng : Z -> draws) : Prop :=
  forall i, draws_ok contextual_bandit_init (rng i).

(** Draws that numpy can produce, the same in every pass: bandit 0, no
    exploration, a standard normal value of 0, weights fetched after the
    update. *)
Definition sample_rng : Z -> draws :=
  fun _ => {| randint_bandit := 0; rand_explore := 0.5;
              randint_action := 0; randn_reward := 0;
              fetch_after_update := true |}.

(** The two kinds of line of the summary. *)
Definition announce (k a : nat) : line :=
  Text ("The agent thinks action " ++ str (k + 1) ++ " for bandit "
        ++ str (a + 1) ++ " is the most promising....").

Definition verdict (right : bool) : line :=
  if right then Text "...and it was right!" else Text "...and it was wrong!".

(** Reading a printed number back as a decimal numeral. *)
Definition read_nat (t : string) : option nat :=
  option_map Nat.of_uint (NilZero.uint_of_string t).




(** A diagnostic line of the training cell: the fixed text followed by an
    array of three numbers. *)
Definition is_mean_line (l : line) : Prop :=
  exists arr, l = TextArray "Mean reward for each of the 3 bandits: " arr /\
              length arr = 3%nat.

(** * Properties *)

(** ** The sigmoid *)

Section Sigmoid.



Lemma sigmoid_lt_1 (x : R) : sigmoid x < 1.
Proof.
  unfold sigmoid. pose proof (exp_pos (- x)) as He.
  apply Rmult_lt_reg_r with (1 + exp (- x)); [lra |].
  unfold Rdiv. rewrite Rmult_assoc, Rinv_l by lra. lra.
Qed.




End Sigmoid.

(** ** argmax and argmin *)

Section Argmax.

Lemma Rltb_true (x y : R) : Rltb x y = true <-> x < y.
Proof. unfold Rltb. destruct (Rlt_dec x y); split; congruence || auto. Qed.

Lemma Rltb_false (x y : R) : Rltb x y = false <-> y <= x.
Proof.
  unfold Rltb. destruct (Rlt_dec x y); split; intros; try congruence; lra.
Qed.

(** A scan either keeps the incoming best position, when nothing in the
    rest is larger, or moves to the first largest entry of the rest. *)
Lemma arg_from_max (l : list R) :
  forall (bi : nat) (b : R) (i : nat),
    (arg_from gt_max bi b i l = bi /\
     forall j, (j < length l)%nat -> nth j l 0 <= b)
    \/
    (exists k, arg_from gt_max bi b i l = (i + k)%nat /\
               (k < length l)%nat /\ b < nth k l 0 /\
               (forall j, (j < length l)%nat -> nth j l 0 <= nth k l 0) /\
               (forall j, (j < k)%nat -> nth j l 0 < nth k l 0)).
Proof.
  induction l as [| x t IH]; intros bi b i; simpl.
  - left. split; [reflexivity | intros j Hj; lia].
  - destruct (gt_max x b) eqn:Hbx; unfold gt_max in Hbx.
    + apply Rltb_true in Hbx. right.
      destruct (IH i x (S i)) as [[Hr Hle] | (k & Hr & Hk & Hlt & Hmax & Hfst)].
      * exists 0%nat. rewrite Hr. simpl.
        split; [lia |]. split; [lia |]. split; [exact Hbx |].
        split; [| intros j Hj; lia].
        intros [| j] Hj; [lra | apply Hle; lia].
      * exists (S k). rewrite Hr. repeat split; simpl; try lia; try lra.
        -- intros [| j] Hj; [lra | apply Hmax; lia].
        -- intros [| j] Hj; [lra | apply Hfst; lia].
    + apply Rltb_false in Hbx.
      destruct (IH bi b (S i)) as [[Hr Hle] | (k & Hr & Hk & Hlt & Hmax & Hfst)].
      * left. split; [exact Hr |].
        intros [| j] Hj; [exact Hbx | apply Hle; lia].
      * right. exists (S k). rewrite Hr. repeat split; simpl; try lia; try lra.
        -- intros [| j] Hj; [lra | apply Hmax; lia].
        -- intros [| j] Hj; [lra | apply Hfst; lia].
Qed.

Lemma argmax_first_max (l : list R) :
  l <> [] -> exists k, argmax l = Ok k /\ first_max l k.
Proof.
  destruct l as [| x t]; [congruence | intros _].
  unfold argmax, arg_ext.
  destruct (arg_from_max t 0%nat x 1%nat)
    as [[Hr Hle] | (k & Hr & Hk & Hlt & Hmax & Hfst)].
  - exists 0%nat. rewrite Hr. split; [reflexivity |].
    repeat split; simpl; try lia.
    intros [| j] Hj; [lra | apply Hle; lia].
  - exists (S k). rewrite Hr. split; [reflexivity |].
    repeat split; simpl; try lia.
    + intros [| j] Hj; [lra | apply Hmax; lia].
    + intros [| j] Hj; [lra | apply Hfst; lia].
Qed.

Lemma first_max_unique (l : list R) (k k' : nat) :
  first_max l k -> first_max l k' -> k = k'.
Proof.
  intros (Hk & Hmax & Hfst) (Hk' & Hmax' & Hfst').
  destruct (Nat.lt_trichotomy k k') as [H | [H | H]]; [| exact H |].
  - pose proof (Hfst' k H). pose proof (Hmax k' Hk'). lra.
  - pose proof (Hfst k' H). pose proof (Hmax' k Hk). lra.
Qed.




(** [argmin] is [argmax] of the negated entries. *)
Lemma arg_from_min_opp (l : list R) :
  forall (bi : nat) (b : R) (i : nat),
    arg_from lt_min bi b i l = arg_from gt_max bi (- b) i (map Ropp l).
Proof.
  induction l as [| x t IH]; intros bi b i; simpl; [reflexivity |].
  assert (Heq : lt_min x b = gt_max (- x) (- b)).
  { unfold lt_min, gt_max. destruct (Rltb x b) eqn:E; symmetry.
    - apply Rltb_true. apply Rltb_true in E. lra.
    - apply Rltb_false. apply Rltb_false in E. lra. }
  rewrite Heq. destruct (gt_max (- x) (- b)); apply IH.
Qed.

Lemma argmin_first_min (l : list R) :
  l <> [] -> exists k, argmin l = Ok k /\ first_min l k.
Proof.
  intros Hne.
  assert (Hmin : argmin l = argmax (map Ropp l)).
  { destruct l as [| x t]; [reflexivity |].
    unfold argmin, argmax, arg_ext; simpl.
    f_equal. apply arg_from_min_opp. }
  destruct (argmax_first_max (map Ropp l)) as (k & Hk & Hlen & Hmax & Hfst).
  { destruct l; simpl; congruence. }
  exists k. split; [congruence |].
  rewrite length_map in Hlen.
  assert (Hnth : forall j, (j < length l)%nat ->
                           nth j (map Ropp l) 0 = - nth j l 0).
  { intros j Hj. rewrite <- Ropp_0 at 1. apply map_nth. }
  repeat split; [exact Hlen | |].
  - intros j Hj. specialize (Hmax j). rewrite length_map in Hmax.
    specialize (Hmax Hj). rewrite !Hnth in Hmax by assumption. lra.
  - intros j Hj. specialize (Hfst j Hj).
    rewrite !Hnth in Hfst by lia. lra.
Qed.

Lemma argmax_constant (l : list R) (c : R) :
  l <> [] -> (forall j, (j < length l)%nat -> nth j l 0 = c) ->
  argmax l = Ok 0%nat.
Proof.
  intros Hne Hc. destruct (argmax_first_max l Hne) as (k & Hk & Hfm).
  rewrite Hk. f_equal. apply (first_max_unique l); [exact Hfm |].
  assert (Hlen : (0 < length l)%nat) by (destruct l; simpl; [congruence | lia]).
  repeat split; [exact Hlen | | intros j Hj; lia].
  intros j Hj. rewrite (Hc j Hj), (Hc 0%nat Hlen). lra.
Qed.

End Argmax.

(** ** Lists, vectors and matrices *)

Section Arrays.

Context {A B C : Type}.

Lemma length_map2 (f : A -> B -> C) (l : list A) (l' : list B) :
  length (map2 f l l') = Nat.min (length l) (length l').
Proof.
  revert l'. induction l as [| a t IH]; intros [| b t']; simpl; auto.
Qed.

Lemma nth_map2 (f : A -> B -> C) (l : list A) (l' : list B)
  (k : nat) (da : A) (db : B) (dc : C) :
  (k < length l)%nat -> (k < length l')%nat ->
  nth k (map2 f l l') dc = f (nth k l da) (nth k l' db).
Proof.
  revert l' k. induction l as [| a t IH]; intros [| b t'] [| k];
    simpl; intros H H'; try lia; auto.
  apply IH; lia.
Qed.

Lemma nth_map_lt (f : A -> C) (l : list A) (k : nat) (d : C) (d' : A) :
  (k < length l)%nat -> nth k (map f l) d = f (nth k l d').
Proof.
  intros Hk. rewrite nth_indep with (d' := f d')
    by (rewrite length_map; exact Hk).
  apply map_nth.
Qed.

Lemma nth_map_seq (g : nat -> C) (m k : nat) (d : C) :
  (k < m)%nat -> nth k (map g (seq 0 m)) d = g k.
Proof.
  intros Hk. rewrite nth_indep with (d' := g 0%nat)
    by (rewrite length_map, length_seq; exact Hk).
  rewrite map_nth, seq_nth by exact Hk. reflexivity.
Qed.

End Arrays.

Section Replace.

Context {A : Type}.

Lemma length_replace (l : list A) (x : A) :
  forall k, (k < length l)%nat ->
            length (firstn k l ++ x :: skipn (S k) l) = length l.
Proof.
  induction l as [| y t IH]; intros [| k] Hk; simpl in *; try lia.
  f_equal. apply IH. lia.
Qed.

Lemma nth_replace (l : list A) (x d : A) :
  forall k j, (k < length l)%nat ->
              nth j (firstn k l ++ x :: skipn (S k) l) d
              = if Nat.eqb j k then x else nth j l d.
Proof.
  induction l as [| y t IH]; intros [| k] [| j] Hk; simpl in *;
    try lia; try reflexivity.
  apply IH. lia.
Qed.

End Replace.

Section Matrices.

Lemma has_shape_rows (n m : nat) (W : matrix) (k : nat) :
  has_shape n m W -> (k < n)%nat -> length (nth k W []) = m.
Proof.
  intros [Hlen Hrows] Hk.
  rewrite Forall_forall in Hrows. apply Hrows, nth_In. lia.
Qed.

Lemma has_shape_intro (n m : nat) (W : matrix) :
  length W = n ->
  (forall k, (k < n)%nat -> length (nth k W []) = m) ->
  has_shape n m W.
Proof.
  intros Hlen Hrows. split; [exact Hlen |].
  apply Forall_forall. intros row Hin.
  destruct (In_nth _ _ [] Hin) as (k & Hk & <-). apply Hrows. lia.
Qed.

Lemma has_shape_full (n m : nat) (c : R) : has_shape n m (full n m c).
Proof.
  unfold full. split; [apply repeat_length |].
  apply Forall_forall. intros row Hin.
  apply repeat_spec in Hin. subst. apply repeat_length.
Qed.

Lemma entry_full (n m : nat) (c : R) (i j : nat) :
  (i < n)%nat -> (j < m)%nat -> entry (full n m c) i j = c.
Proof.
  intros Hi Hj. unfold entry, full.
  rewrite (nth_repeat_lt (repeat c m)) by exact Hi.
  apply nth_repeat_lt; exact Hj.
Qed.

Lemma index2_entry (n m : nat) (W : matrix) (i j : nat) :
  has_shape n m W -> (i < n)%nat -> (j < m)%nat ->
  index2 W i j = Ok (entry W i j).
Proof.
  intros HW Hi Hj. unfold index2, entry.
  pose proof (has_shape_rows n m W i HW Hi) as Hrow.
  destruct HW as [Hlen _].
  rewrite (nth_error_nth' W [] ) by lia. simpl.
  rewrite (nth_error_nth' _ 0) by lia. reflexivity.
Qed.

Lemma length_one_hot (s n : nat) : length (one_hot s n) = n.
Proof. unfold one_hot. rewrite length_map, length_seq. reflexivity. Qed.


(** A sum of products with a one-hot row picks one term. *)
Lemma Rsum_one_hot (g : list R -> R) (W : matrix) :
  forall (a s : nat),
    Rsum (map2 (fun xk row => xk * g row)
            (map (fun k => if Nat.eqb k s then 1 else 0)
               (seq a (length W))) W)
    = if (a <=? s)%nat && (s <? a + length W)%nat
      then g (nth (s - a) W []) else 0.
Proof.
  induction W as [| row t IH]; intros a s; simpl.
  - destruct (a <=? s)%nat eqn:E1, (s <? a + 0)%nat eqn:E2; simpl; try reflexivity.
    apply Nat.leb_le in E1. apply Nat.ltb_lt in E2. lia.
  - rewrite IH. destruct (Nat.eqb_spec a s) as [-> | Hne].
    + rewrite Nat.sub_diag.
      replace (S s <=? s)%nat with false by (symmetry; apply Nat.leb_gt; lia).
      replace (s <=? s)%nat with true by (symmetry; apply Nat.leb_le; lia).
      replace (s <? s + S (length t))%nat with true
        by (symmetry; apply Nat.ltb_lt; lia).
      simpl. lra.
    + destruct (a <=? s)%nat eqn:E1.
      * apply Nat.leb_le in E1.
        replace (S a <=? s)%nat with true by (symmetry; apply Nat.leb_le; lia).
        replace (s <? a + S (length t))%nat with (s <? S a + length t)%nat
          by (f_equal; lia).
        simpl. destruct (s <? S (a + length t))%nat.
        -- replace (s - a)%nat with (S (s - S a)) by lia. simpl. lra.
        -- lra.
      * apply Nat.leb_gt in E1.
        replace (S a <=? s)%nat with false by (symmetry; apply Nat.leb_gt; lia).
        simpl. lra.
Qed.

Lemma vecmat_one_hot (n m : nat) (W : matrix) (s : nat) :
  has_shape n m W -> (s < n)%nat -> vecmat (one_hot s n) W m = nth s W [].
Proof.
  intros HW Hs. pose proof (has_shape_rows n m W s HW Hs) as Hrow.
  destruct HW as [Hlen _]. unfold vecmat, one_hot.
  apply nth_ext with (d := 0) (d' := 0).
  - rewrite length_map, length_seq. congruence.
  - intros j Hj. rewrite length_map, length_seq in Hj.
    rewrite nth_map_seq by exact Hj. rewrite <- Hlen.
    rewrite (Rsum_one_hot (fun row => nth j row 0) W 0 s). simpl.
    replace (s <? length W)%nat with true
      by (symmetry; apply Nat.ltb_lt; lia).
    rewrite Nat.sub_0_r. reflexivity.
Qed.

End Matrices.

(** ** The agent *)

Section Agent.

Variable ag : agent.
Hypothesis Hwf : agent_wf ag.

Variables s a : nat.
Hypothesis Hs : (s < s_size ag)%nat.
Hypothesis Ha : (a < a_size ag)%nat.

Lemma length_output (s0 : nat) : length (output ag s0) = a_size ag.
Proof.
  unfold output, vecmat. rewrite !length_map, length_seq. reflexivity.
Qed.

(** For a valid state the one-hot product selects the row of the state. *)
Lemma output_row : output ag s = map sigmoid (nth s (weights ag) []).
Proof.
  unfold output.
  rewrite (vecmat_one_hot (s_size ag) (a_size ag)) by assumption.
  reflexivity.
Qed.

Lemma nth_output (j : nat) :
  (j < a_size ag)%nat ->
  nth j (output ag s) 0 = sigmoid (entry (weights ag) s j).
Proof.
  intros Hj. rewrite output_row. unfold entry.
  apply nth_map_lt.
  rewrite (has_shape_rows _ _ _ s Hwf Hs). exact Hj.
Qed.

Lemma responsible_weight_ok :
  responsible_weight ag s a = Ok (sigmoid (entry (weights ag) s a)).
Proof.
  unfold responsible_weight.
  rewrite (nth_error_nth' _ 0) by (rewrite length_output; exact Ha).
  simpl. rewrite nth_output by exact Ha. reflexivity.
Qed.

Lemma loss_ok (r : R) :
  loss ag s a r = Ok (- (ln (sigmoid (entry (weights ag) s a)) * r)).
Proof. unfold loss. rewrite responsible_weight_ok. reflexivity. Qed.


Lemma length_grad_output (r : R) :
  length (grad_output (output ag s) a r) = a_size ag.
Proof.
  unfold grad_output. rewrite length_map, length_seq. apply length_output.
Qed.

Lemma has_shape_grad_weights (r : R) :
  has_shape (s_size ag) (a_size ag) (grad_weights ag s a r).
Proof.
  unfold grad_weights. apply has_shape_intro.
  - rewrite length_map. apply length_one_hot.
  - intros k Hk.
    rewrite (nth_map_lt _ _ k [] 0) by (rewrite length_one_hot; exact Hk).
    rewrite length_map, length_map2, length_grad_output, length_output.
    apply Nat.min_id.
Qed.


End Agent.

Section GradientDescent.

Lemma has_shape_apply_gradient_descent (n m : nat) (alpha : R)
  (W G : matrix) :
  has_shape n m W -> has_shape n m G ->
  has_shape n m (apply_gradient_descent alpha W G).
Proof.
  intros HW HG. unfold apply_gradient_descent.
  pose proof HW as [HlW _]. pose proof HG as [HlG _].
  apply has_shape_intro.
  - rewrite length_map2, HlW, HlG. apply Nat.min_id.
  - intros k Hk. rewrite (nth_map2 _ _ _ k [] []) by lia.
    rewrite length_map2.
    rewrite (has_shape_rows n m W k HW Hk), (has_shape_rows n m G k HG Hk).
    apply Nat.min_id.
Qed.


End GradientDescent.

(** ** Bounds of the exponential *)


Lemma exp_1_gt_2 : 2 < exp 1.
Proof. pose proof (exp_ineq1 1). lra. Qed.

Lemma exp_INR_ge (n : nat) : 2 ^ n <= exp (INR n).
Proof.
  induction n as [| n IH].
  - simpl. rewrite exp_0. lra.
  - rewrite S_INR, exp_plus. cbn [pow].
    pose proof exp_1_gt_2. pose proof (pow_lt 2 n ltac:(lra)).
    pose proof (exp_pos (INR n)). nra.
Qed.


(** ** Binary32: where the float32 sigmoid rounds to 1 and to 0 *)

Section Binary32.

Lemma ln_2_bounds : 0 < ln 2 < 1.
Proof.
  split.
  - rewrite <- ln_1. apply ln_increasing; lra.
  - replace 1 with (ln (exp 1)) by apply ln_exp.
    apply ln_increasing; [lra |]. pose proof (exp_ineq1 1). lra.
Qed.


Lemma Znearest_even_up (x : R) (z : Z) :
  IZR z - 1 / 2 < x < IZR z -> Znearest_even x = z.
Proof.
  intros Hx. unfold Znearest_even.
  assert (H0 : Int_part x = (z - 1)%Z).
  { symmetry; apply Int_part_spec. rewrite minus_IZR. lra. }
  rewrite H0, minus_IZR.
  destruct (Rlt_dec (x - (IZR z - 1)) (1 / 2)); [lra |].
  destruct (Rlt_dec (1 / 2) (x - (IZR z - 1))); [lia | lra].
Qed.


(** A real within [2^-26] below 1 rounds to [1.0]. *)
Lemma round32_saturates (y : R) :
  1 - / 2 ^ 26 < y < 1 -> round32 y = f32_one.
Proof.
  intros [Hlo Hhi].
  assert (H26 : 2 ^ 26 = 67108864) by (simpl; lra).
  assert (H24 : 2 ^ 24 = 16777216) by (simpl; lra).
  rewrite H26 in Hlo.
  unfold round32. destruct (Rlt_dec 0 y); [| lra].
  unfold round32_pos. pose proof ln_2_bounds as [Hl0 Hl1].
  assert (Hlny : - ln 2 <= ln y < 0).
  { split.
    - rewrite <- ln_Rinv by lra.
      destruct (Req_dec (/ 2) y) as [<- | Hne]; [lra |].
      left. apply ln_increasing; lra.
    - rewrite <- ln_1. apply ln_increasing; lra. }
  assert (He : ilog2 y = (-1)%Z).
  { unfold ilog2. symmetry. apply Int_part_spec. simpl IZR.
    unfold Rdiv. assert (0 < / ln 2) by (apply Rinv_0_lt_compat; lra).
    assert (ln 2 * / ln 2 = 1) by (apply Rinv_r; lra). split; nra. }
  rewrite He. change (Z.max (-1 - 23) (-149)) with (-24)%Z.
  change (powerRZ 2 (- -24)) with (2 ^ 24). rewrite H24.
  rewrite (Znearest_even_up _ 16777216) by lra.
  vm_compute. reflexivity.
Qed.

Lemma sigmoid_saturates (t : R) : 26 <= t -> 1 - / 2 ^ 26 < sigmoid t < 1.
Proof.
  intros Ht. split; [| apply sigmoid_lt_1].
  unfold sigmoid.
  assert (H2 : 2 ^ 26 <= exp (INR 26)) by apply exp_INR_ge.
  assert (H26 : INR 26 = 26) by (rewrite INR_IZR_INZ; reflexivity).
  rewrite H26 in H2.
  assert (Hexp : exp 26 <= exp t).
  { destruct Ht as [Hlt | <-];
      [left; apply exp_increasing; exact Hlt | right; reflexivity]. }
  rewrite exp_Ropp. pose proof (exp_pos t) as Hpos.
  pose proof (pow_lt 2 26 ltac:(lra)) as Hp.
  assert (Hle : / exp t <= / 2 ^ 26) by (apply Rinv_le_contravar; lra).
  assert (Hip : 0 < / exp t) by (apply Rinv_0_lt_compat; exact Hpos).
  assert (Heq : 1 / (1 + / exp t) = 1 - / exp t / (1 + / exp t))
    by (field; lra).
  rewrite Heq.
  assert (/ exp t / (1 + / exp t) < / exp t).
  { unfold Rdiv. rewrite <- (Rmult_1_r (/ exp t)) at 3.
    apply Rmult_lt_compat_l; [exact Hip |].
    rewrite <- Rinv_1. apply Rinv_lt_contravar; lra. }
  lra.
Qed.


Lemma SF2R_of_Z_30 : SF2R (f32_of_Z 30) = 30.
Proof.
  change (f32_of_Z 30) with (S754_finite false 15728640 (-19)).
  unfold SF2R. simpl. lra.
Qed.

Lemma SF2R_of_Z_40 : SF2R (f32_of_Z 40) = 40.
Proof.
  change (f32_of_Z 40) with (S754_finite false 10485760 (-18)).
  unfold SF2R. simpl. lra.
Qed.


Lemma sigmoid32_30 : sigmoid32 (f32_of_Z 30) = f32_one.
Proof.
  change (sigmoid32 (f32_of_Z 30))
    with (round32 (sigmoid (SF2R (f32_of_Z 30)))).
  rewrite SF2R_of_Z_30. apply round32_saturates, sigmoid_saturates. lra.
Qed.

Lemma sigmoid32_40 : sigmoid32 (f32_of_Z 40) = f32_one.
Proof.
  change (sigmoid32 (f32_of_Z 40))
    with (round32 (sigmoid (SF2R (f32_of_Z 40)))).
  rewrite SF2R_of_Z_40. apply round32_saturates, sigmoid_saturates. lra.
Qed.


End Binary32.

(** ** The environment *)

Lemma bandit_wf_init : bandit_wf contextual_bandit_init.
Proof.
  unfold bandit_wf, has_shape; simpl. split; [reflexivity |].
  repeat constructor.
Qed.

Lemma bandit_wf_getBandit (self : contextual_bandit) (randint : nat) :
  bandit_wf self -> bandit_wf (fst (getBandit self randint)).
Proof. intros H; exact H. Qed.

Lemma pullArm_pull (self : contextual_bandit) (action : nat) (randn : R) :
  pullArm self action randn = pull_spec (bandits self) (state self) action randn.
Proof. reflexivity. Qed.

(** C1.  In a bandit whose stored state is a valid row and for a valid
    action, [pullArm] compares the drawn normal value with the threshold at
    (state, action): the reward is [+1] when the draw exceeds the threshold
    and [-1] otherwise, so for every draw it is [+1] or [-1]. *)
Theorem pullArm_reward (self : contextual_bandit) (action : nat) (randn : R) :
  bandit_wf self ->
  (state self < num_bandits self)%nat ->
  (action < num_actions self)%nat ->
  let threshold := entry (bandits self) (state self) action in
  (randn > threshold -> pullArm self action randn = Ok 1%Z) /\
  (~ randn > threshold -> pullArm self action randn = Ok (-1)%Z) /\
  (pullArm self action randn = Ok 1%Z \/
   pullArm self action randn = Ok (-1)%Z).
Proof.
  intros Hwf Hs Ha threshold. unfold pullArm.
  rewrite (index2_entry _ _ _ _ _ Hwf Hs Ha). simpl. fold threshold.
  destruct (Rltb threshold randn) eqn:E.
  - apply Rltb_true in E. repeat split; auto. intros H. unfold Rgt in H. lra.
  - apply Rltb_false in E. repeat split; auto. intros H. unfold Rgt in H. lra.
Qed.

Lemma pullArm_reward_witness :
  bandit_wf contextual_bandit_init /\
  pullArm contextual_bandit_init 3 0 = Ok 1%Z.
Proof.
  split; [exact bandit_wf_init |].
  apply (pullArm_reward contextual_bandit_init 3 0 bandit_wf_init).
  - simpl; lia.
  - simpl; lia.
  - unfold entry; simpl; lra.
Defined.

(** C5, as stated, fails: [pullArm] has no state argument and reads the
    stored field.  With the table, the action and the draw fixed, the reward
    changes with the stored state; and the reward for the stored state 0
    differs from the one of [pull_spec] at the state 2. *)
Lemma pullArm_reads_stored_state :
  let at_state (st : nat) :=
    {| state := st; bandits := bandit_table;
       num_bandits := 3; num_actions := 4 |} in
  pullArm (at_state 0%nat) 3 0 = Ok 1%Z /\
  pullArm (at_state 2%nat) 3 0 = Ok (-1)%Z /\
  pull_spec bandit_table 2 3 0 = Ok (-1)%Z /\
  pullArm (at_state 0%nat) 3 0 <> pull_spec bandit_table 2 3 0.
Proof.
  assert (H0 : Rltb (-5) 0 = true) by (apply Rltb_true; lra).
  assert (H2 : Rltb 5 0 = false) by (apply Rltb_false; lra).
  unfold pullArm, pull_spec, index2; simpl. rewrite H0, H2.
  repeat split; try reflexivity. discriminate.
Qed.

(** C5, amended.  [pullArm] takes the action only and looks the threshold
    up at the stored state: two bandits with the same table and the same
    stored state give the same reward, which is the one of [pull_spec] at the
    stored state; and right after [getBandit] has returned [s] the stored
    state is [s], so the reward is the one of [pull_spec] at [(s, action)]. *)
Theorem pullArm_stored_state (self other : contextual_bandit)
  (randint action : nat) (randn : R) :
  bandits self = bandits other ->
  state self = state other ->
  pullArm self action randn = pullArm other action randn /\
  pullArm self action randn
    = pull_spec (bandits self) (state self) action randn /\
  (let (cB, s) := getBandit self randint in
   state cB = s /\ s = randint /\
   pullArm cB action randn = pull_spec (bandits self) s action randn).
Proof.
  intros Hb Hs. unfold pullArm, pull_spec; simpl. rewrite Hb, Hs.
  repeat split; reflexivity.
Qed.

Lemma pullArm_stored_state_witness :
  pullArm contextual_bandit_init 3 0
  = pullArm (fst (getBandit contextual_bandit_init 0)) 3 0.
Proof.
  apply (pullArm_stored_state contextual_bandit_init
           (fst (getBandit contextual_bandit_init 0)) 0 3 0);
    reflexivity.
Defined.

(** ** One training step of the agent *)




Lemma update_ok (ag : agent) (s a : nat) (r : R) :
  agent_wf ag -> (s < s_size ag)%nat -> (a < a_size ag)%nat ->
  update ag s a r
  = Ok {| lr := lr ag; s_size := s_size ag; a_size := a_size ag;
          weights := apply_gradient_descent (lr ag) (weights ag)
                       (grad_weights ag s a r) |}.
Proof.
  intros Hwf Hs Ha. unfold update.
  rewrite (loss_ok ag Hwf s a Hs Ha). reflexivity.
Qed.


Lemma update_wf (ag ag' : agent) (s a : nat) (r : R) :
  agent_wf ag -> (s < s_size ag)%nat -> (a < a_size ag)%nat ->
  update ag s a r = Ok ag' ->
  agent_wf ag' /\ lr ag' = lr ag /\
  s_size ag' = s_size ag /\ a_size ag' = a_size ag.
Proof.
  intros Hwf Hs Ha Hup.
  rewrite update_ok in Hup by assumption. injection Hup as <-.
  simpl. split; [| repeat split].
  unfold agent_wf; simpl. apply has_shape_apply_gradient_descent;
    [exact Hwf | apply has_shape_grad_weights; assumption].
Qed.



(** C4, as stated, fails on the float32 graph: on the weight row
    [30, 40, 30, 30] every activation rounds to [1.0], so [act] returns the
    index 0, while the largest entry of the weight row, 40, is at the
    index 1. *)
Lemma chosen_action32_not_raw_argmax :
  let row := [f32_of_Z 30; f32_of_Z 40; f32_of_Z 30; f32_of_Z 30] in
  let W := [row; repeat f32_one 4; repeat f32_one 4] in
  output32 3 4 W 0 = [f32_one; f32_one; f32_one; f32_one] /\
  chosen_action32 3 4 W 0 = Ok 0%nat /\
  map SF2R row = [30; 40; 30; 30] /\
  first_max (map SF2R row) 1.
Proof.
  cbv zeta.
  assert (Hout : output32 3 4
            [ [f32_of_Z 30; f32_of_Z 40; f32_of_Z 30; f32_of_Z 30];
              repeat f32_one 4; repeat f32_one 4 ] 0
          = [f32_one; f32_one; f32_one; f32_one]).
  { unfold output32.
    replace (vecmat32 (one_hot32 0 3) _ 4)
      with [f32_of_Z 30; f32_of_Z 40; f32_of_Z 30; f32_of_Z 30]
      by (vm_compute; reflexivity).
    cbn [map]. rewrite !sigmoid32_30, sigmoid32_40. reflexivity. }
  assert (Hrow : map SF2R [f32_of_Z 30; f32_of_Z 40; f32_of_Z 30; f32_of_Z 30]
                 = [30; 40; 30; 30])
    by (cbn [map]; rewrite !SF2R_of_Z_30, SF2R_of_Z_40; reflexivity).
  split; [exact Hout |]. split.
  - unfold chosen_action32. rewrite Hout. vm_compute. reflexivity.
  - split; [exact Hrow |]. rewrite Hrow.
    split; [simpl; lia |]. split.
    + intros [| [| [| [| j]]]] Hj; simpl in *; try lra; lia.
    + intros [| j] Hj; simpl; [lra | lia].
Qed.

(** C4, amended.  For a valid state [s], [act] returns the first position
    of a largest entry of the elementwise activation of the weight row of
    [s], whatever function the activation kernel computes; this is the first
    position of a largest entry of the weight row itself when the kernel is
    strictly increasing on the entries of that row; and with the initial
    weights, all equal to one, [act] returns 0 for every state. *)
Theorem chosen_action_argmax (act : R -> R) (ag : agent) (s : nat) :
  agent_wf ag -> (s < s_size ag)%nat -> (0 < a_size ag)%nat ->
  let row := nth s (weights ag) [] in
  output_with act ag s = map act row /\
  (exists k, chosen_action_with act ag s = Ok k /\
             first_max (map act row) k /\
             ((forall i j, (i < length row)%nat -> (j < length row)%nat ->
                           nth i row 0 < nth j row 0 ->
                           act (nth i row 0) < act (nth j row 0)) ->
              first_max row k)) /\
  (weights ag = full (s_size ag) (a_size ag) 1 ->
   chosen_action_with act ag s = Ok 0%nat).
Proof.
  intros Hwf Hs Hm row.
  assert (Hout : output_with act ag s = map act row).
  { unfold output_with.
    rewrite (vecmat_one_hot (s_size ag) (a_size ag)) by assumption.
    reflexivity. }
  assert (Hlen : length row = a_size ag)
    by (apply (has_shape_rows (s_size ag)); assumption).
  assert (Hne : map act row <> [])
    by (intros E; apply (f_equal (@length R)) in E;
        rewrite length_map, Hlen in E; simpl in E; lia).
  assert (Hnth : forall j, (j < length row)%nat ->
                           nth j (map act row) 0 = act (nth j row 0))
    by (intros j Hj; apply nth_map_lt; exact Hj).
  split; [exact Hout |]. split.
  - unfold chosen_action_with. rewrite Hout.
    destruct (argmax_first_max (map act row) Hne) as (k & Hk & Hfm).
    exists k. split; [exact Hk |]. split; [exact Hfm |].
    intros Hinc. destruct Hfm as (Hlt & Hmax & Hfst).
    rewrite length_map in Hlt, Hmax.
    split; [exact Hlt |]. split.
    + intros j Hj. specialize (Hmax j Hj).
      rewrite !Hnth in Hmax by assumption.
      destruct (Rle_lt_dec (nth j row 0) (nth k row 0)) as [Hle | Hgt];
        [exact Hle |].
      specialize (Hinc k j Hlt Hj Hgt). lra.
    + intros j Hj. specialize (Hfst j Hj).
      rewrite !Hnth in Hfst by lia.
      destruct (Rle_lt_dec (nth k row 0) (nth j row 0))
        as [[Hlt' | Heq] | Hgt]; [| | exact Hgt].
      * specialize (Hinc k j Hlt ltac:(lia) Hlt'). lra.
      * rewrite Heq in Hfst. lra.
  - intros Hinit. unfold chosen_action_with. rewrite Hout.
    apply (argmax_constant _ (act 1)); [exact Hne |].
    intros j Hj. rewrite length_map in Hj. rewrite Hnth by exact Hj.
    f_equal. unfold row. rewrite Hinit.
    apply (entry_full (s_size ag) (a_size ag) 1 s j); [exact Hs | lia].
Qed.

Lemma chosen_action_argmax_witness :
  agent_wf (agent_init 0.001 3 4) /\
  chosen_action_with sigmoid (agent_init 0.001 3 4) 2 = Ok 0%nat.
Proof.
  assert (Hwf : agent_wf (agent_init 0.001 3 4))
    by (unfold agent_wf, agent_init; simpl; apply has_shape_full).
  split; [exact Hwf |].
  apply (chosen_action_argmax sigmoid (agent_init 0.001 3 4) 2 Hwf);
    simpl; try lia; reflexivity.
Defined.

(** ** The score table *)

Lemma add_at_ok (n m : nat) (W : matrix) (i j : nat) (v : R) :
  has_shape n m W -> (i < n)%nat -> (j < m)%nat ->
  exists W',
    add_at W i j v = Ok W' /\ has_shape n m W' /\
    forall i' j', entry W' i' j'
                  = if Nat.eqb i' i && Nat.eqb j' j
                    then entry W i j + v else entry W i' j'.
Proof.
  intros HW Hi Hj. pose proof (has_shape_rows n m W i HW Hi) as Hrow.
  pose proof HW as [Hlen _]. unfold add_at.
  rewrite (nth_error_nth' W []) by lia. cbn [of_option bind].
  rewrite (nth_error_nth' _ 0) by lia. cbn [of_option bind].
  eexists. split; [reflexivity |]. split.
  - apply has_shape_intro.
    + rewrite length_replace by lia. exact Hlen.
    + intros k Hk. rewrite nth_replace by lia.
      destruct (Nat.eqb k i).
      * rewrite length_replace by lia. exact Hrow.
      * apply (has_shape_rows n m W k HW Hk).
  - intros i' j'. unfold entry. rewrite nth_replace by lia.
    destruct (Nat.eqb_spec i' i) as [-> | Hne]; cbn [andb]; [| reflexivity].
    rewrite nth_replace by lia. reflexivity.
Qed.

(** ** The training loop *)

Lemma notebook_inv_init : notebook_inv notebook_init.
Proof.
  constructor; simpl; try reflexivity.
  - unfold agent_wf; simpl. apply (has_shape_full 3 4).
  - apply (has_shape_full 3 4).
  - discriminate.
Qed.

Lemma diagnostic_frame (nb : notebook) :
  cBandit (diagnostic nb) = cBandit nb /\
  myAgent (diagnostic nb) = myAgent nb /\
  total_episodes (diagnostic nb) = total_episodes nb /\
  total_reward (diagnostic nb) = total_reward nb /\
  eps (diagnostic nb) = eps nb /\
  var_i (diagnostic nb) = var_i nb /\
  var_s (diagnostic nb) = var_s nb /\
  var_action (diagnostic nb) = var_action nb /\
  var_reward (diagnostic nb) = var_reward nb /\
  ww (diagnostic nb) = ww nb.
Proof.
  unfold diagnostic. destruct (var_i nb mod 500 =? 0)%Z; simpl;
    repeat split; reflexivity.
Qed.

(** One pass, step by step, under the invariant. *)
Lemma episode_spec (d : draws) (nb : notebook) :
  notebook_inv nb -> draws_ok contextual_bandit_init d ->
  let cB := fst (getBandit (cBandit nb) (randint_bandit d)) in
  let s := randint_bandit d in
  exists (action : nat) (reward : Z) (ag : agent) (tr : matrix),
    (s < 3)%nat /\ (action < 4)%nat /\
    select_action nb s d = Ok action /\
    pullArm cB action (randn_reward d) = Ok reward /\
    (reward = 1%Z \/ reward = (-1)%Z) /\
    update (myAgent nb) s action (IZR reward) = Ok ag /\
    add_at (total_reward nb) s action (IZR reward) = Ok tr /\
    has_shape 3 4 tr /\
    episode d nb
    = Ok (incr_i (diagnostic
            {| cBandit := cB; myAgent := ag;
               total_episodes := total_episodes nb; total_reward := tr;
               eps := eps nb; var_i := var_i nb;
               var_s := Some s; var_action := Some action;
               var_reward := Some reward;
               ww := Some (if fetch_after_update d then weights ag
                           else weights (myAgent nb));
               stdout := stdout nb |})).
Proof.
  intros Hinv (Hds & Hda & Hdu) cB s. simpl in Hds, Hda.
  assert (Hs : (s < 3)%nat) by exact Hds.
  (* the action *)
  assert (Hact : exists action, select_action nb s d = Ok action /\
                                (action < 4)%nat).
  { unfold select_action. destruct (Rltb (rand_explore d) (eps nb)).
    - exists (randint_action d). split; [reflexivity | exact Hda].
    - unfold chosen_action.
      destruct (argmax_first_max (output (myAgent nb) s)) as (k & Hk & Hlt & _).
      + intros E. pose proof (length_output (myAgent nb) s) as Hl.
        rewrite E, (inv_a_size nb Hinv) in Hl. discriminate.
      + exists k. split; [exact Hk |].
        rewrite length_output, (inv_a_size nb Hinv) in Hlt. exact Hlt. }
  destruct Hact as (action & Hsel & Ha).
  (* the reward *)
  assert (HcB : bandit_wf cB).
  { unfold bandit_wf, cB; simpl.
    rewrite (inv_table nb Hinv), (inv_num_bandits nb Hinv),
      (inv_num_actions nb Hinv).
    exact bandit_wf_init. }
  destruct (pullArm_reward cB action (randn_reward d) HcB)
    as (_ & _ & Hrew).
  { unfold cB; simpl. rewrite (inv_num_bandits nb Hinv). exact Hs. }
  { unfold cB; simpl. rewrite (inv_num_actions nb Hinv). exact Ha. }
  assert (Hr : exists reward, pullArm cB action (randn_reward d) = Ok reward
                              /\ (reward = 1%Z \/ reward = (-1)%Z)).
  { destruct Hrew as [H | H]; eexists; (split; [exact H |]); auto. }
  destruct Hr as (reward & Hpull & Hpm).
  (* the update *)
  assert (Hs' : (s < s_size (myAgent nb))%nat)
    by (rewrite (inv_s_size nb Hinv); exact Hs).
  assert (Ha' : (action < a_size (myAgent nb))%nat)
    by (rewrite (inv_a_size nb Hinv); exact Ha).
  pose proof (update_ok (myAgent nb) s action (IZR reward)
                (inv_agent nb Hinv) Hs' Ha') as Hup.
  (* the score table *)
  destruct (add_at_ok 3 4 (total_reward nb) s action (IZR reward)
              (inv_total_reward nb Hinv) Hs Ha) as (tr & Hadd & Htr & _).
  eexists action, reward, _, tr.
  repeat (split; [first [eassumption | reflexivity] |]).
  subst s cB. unfold episode. cbn [getBandit fst] in *.
  rewrite Hsel. cbn [bind]. rewrite Hpull. cbn [bind].
  rewrite Hup. cbn [bind]. rewrite Hadd. reflexivity.
Qed.

(** The variables after a pass that did not raise. *)
Lemma episode_vars (d : draws) (nb nb' : notebook) :
  notebook_inv nb -> draws_ok contextual_bandit_init d ->
  episode d nb = Ok nb' ->
  let cB := fst (getBandit (cBandit nb) (randint_bandit d)) in
  let s := randint_bandit d in
  exists (action : nat) (reward : Z) (ag : agent) (tr : matrix),
    ((s < 3)%nat /\ (action < 4)%nat /\
     select_action nb s d = Ok action /\
     pullArm cB action (randn_reward d) = Ok reward /\
     (reward = 1%Z \/ reward = (-1)%Z) /\
     update (myAgent nb) s action (IZR reward) = Ok ag /\
     add_at (total_reward nb) s action (IZR reward) = Ok tr /\
     has_shape 3 4 tr) /\
    (cBandit nb' = cB /\ myAgent nb' = ag /\ total_reward nb' = tr /\
     total_episodes nb' = total_episodes nb /\ eps nb' = eps nb /\
     var_i nb' = (var_i nb + 1)%Z) /\
    (var_s nb' = Some s /\ var_action nb' = Some action /\
     var_reward nb' = Some reward /\
     ww nb' = Some (if fetch_after_update d then weights ag
                    else weights (myAgent nb))) /\
    stdout nb'
    = stdout nb ++
      (if (var_i nb mod 500 =? 0)%Z
       then [TextArray "Mean reward for each of the 3 bandits: "
               (row_means tr)]
       else []).
Proof.
  intros Hinv Hd Hep cB s.
  destruct (episode_spec d nb Hinv Hd)
    as (action & reward & ag & tr & Hs & Ha & Hsel & Hpull & Hpm & Hup
        & Hadd & Htr & Hrun).
  rewrite Hrun in Hep. injection Hep as <-.
  exists action, reward, ag, tr.
  split; [repeat (split; [assumption |]); assumption |].
  unfold incr_i, diagnostic; cbn [var_i].
  destruct (var_i nb mod 500 =? 0)%Z; cbn.
  - rewrite (inv_num_bandits nb Hinv). repeat split; reflexivity.
  - rewrite app_nil_r. repeat split; reflexivity.
Qed.

Lemma episode_inv (d : draws) (nb nb' : notebook) :
  notebook_inv nb -> draws_ok contextual_bandit_init d ->
  episode d nb = Ok nb' -> notebook_inv nb'.
Proof.
  intros Hinv Hd Hep.
  destruct (episode_vars d nb nb' Hinv Hd Hep)
    as (action & reward & ag & tr
        & (Hs & Ha & Hsel & Hpull & Hpm & Hup & Hadd & Htr)
        & (HcB & Hag & Htot & Hte & Heps & Hi)
        & (Hvs & Hva & Hvr & Hww) & Hout).
  assert (Hs' : (randint_bandit d < s_size (myAgent nb))%nat)
    by (rewrite (inv_s_size nb Hinv); exact Hs).
  assert (Ha' : (action < a_size (myAgent nb))%nat)
    by (rewrite (inv_a_size nb Hinv); exact Ha).
  destruct (update_wf _ _ _ _ _ (inv_agent nb Hinv) Hs' Ha' Hup)
    as (Hwf' & Hlr & Hss & Has).
  constructor.
  - rewrite HcB. exact (inv_table nb Hinv).
  - rewrite HcB. exact (inv_num_bandits nb Hinv).
  - rewrite HcB. exact (inv_num_actions nb Hinv).
  - rewrite Hag. exact Hwf'.
  - rewrite Hag, Hss. exact (inv_s_size nb Hinv).
  - rewrite Hag, Has. exact (inv_a_size nb Hinv).
  - rewrite Hag, Hlr. exact (inv_lr nb Hinv).
  - rewrite Htot. exact Htr.
  - rewrite Heps. exact (inv_eps nb Hinv).
  - rewrite Hte. exact (inv_total_episodes nb Hinv).
  - intros w Hw. rewrite Hww in Hw. injection Hw as <-.
    destruct (fetch_after_update d).
    + unfold agent_wf in Hwf'. rewrite Hss, Has in Hwf'.
      rewrite (inv_s_size nb Hinv), (inv_a_size nb Hinv) in Hwf'.
      exact Hwf'.
    + pose proof (inv_agent nb Hinv) as H. unfold agent_wf in H.
      rewrite (inv_s_size nb Hinv), (inv_a_size nb Hinv) in H. exact H.
Qed.

Section Training.

Variable rng : Z -> draws.
Hypothesis Hrng : rng_ok rng.

(** Every prefix of the run succeeds and keeps the invariant. *)
Lemma episodes_ok (k : nat) :
  exists nb, episodes k rng notebook_init = Ok nb /\
             notebook_inv nb /\ var_i nb = Z.of_nat k.
Proof.
  induction k as [| k (nb & Hk & Hinv & Hi)].
  - exists notebook_init. split; [reflexivity |].
    split; [exact notebook_inv_init | reflexivity].
  - destruct (episode_spec (rng (var_i nb)) nb Hinv (Hrng _))
      as (action & reward & ag & tr & _ & _ & _ & _ & _ & _ & _ & _ & Hrun).
    eexists. split; [simpl; rewrite Hk; simpl; exact Hrun |].
    split.
    + apply (episode_inv (rng (var_i nb)) nb); auto.
    + destruct (episode_vars _ _ _ Hinv (Hrng _) Hrun)
        as (_ & _ & _ & _ & _ & (_ & _ & _ & _ & _ & Hi') & _).
      rewrite Hi', Hi. lia.
Qed.

Lemma episodes_front (k : nat) (nb : notebook) :
  episodes (S k) rng nb
  = (nb' <- episode (rng (var_i nb)) nb ;; episodes k rng nb').
Proof.
  induction k as [| k IH].
  - simpl. destruct (episode (rng (var_i nb)) nb); reflexivity.
  - change (episodes (S (S k)) rng nb)
      with (nb' <- episodes (S k) rng nb ;; episode (rng (var_i nb')) nb').
    rewrite IH. destruct (episode (rng (var_i nb)) nb); reflexivity.
Qed.

(** With [k] passes left, the loop needs more than [k] units of fuel and
    then runs exactly those [k] passes. *)
Lemma training_loop_episodes (k : nat) :
  forall (fuel : nat) (nb : notebook),
    notebook_inv nb -> var_i nb = (10000 - Z.of_nat k)%Z ->
    (k < fuel)%nat ->
    training_loop fuel rng nb = Some (episodes k rng nb).
Proof.
  induction k as [| k IH]; intros [| fuel] nb Hinv Hi Hfuel; try lia.
  - simpl. rewrite (inv_total_episodes nb Hinv), Hi.
    replace (10000 - Z.of_nat 0 <? 10000)%Z with false
      by (symmetry; apply Z.ltb_ge; lia).
    reflexivity.
  - rewrite episodes_front. cbn [training_loop].
    rewrite (inv_total_episodes nb Hinv).
    replace (var_i nb <? 10000)%Z with true
      by (symmetry; apply Z.ltb_lt; lia).
    destruct (episode_spec (rng (var_i nb)) nb Hinv (Hrng _))
      as (action & reward & ag & tr & _ & _ & _ & _ & _ & _ & _ & _ & Hrun).
    pose proof (episode_inv _ _ _ Hinv (Hrng _) Hrun) as Hinv'.
    destruct (episode_vars _ _ _ Hinv (Hrng _) Hrun)
      as (_ & _ & _ & _ & _ & (_ & _ & _ & _ & _ & Hi') & _).
    rewrite Hrun. cbn [bind]. apply IH; [exact Hinv' | lia | lia].
Qed.

Lemma training_loop_out_of_fuel (k : nat) :
  forall (fuel : nat) (nb : notebook),
    notebook_inv nb -> var_i nb = (10000 - Z.of_nat k)%Z ->
    (fuel <= k)%nat ->
    training_loop fuel rng nb = None.
Proof.
  induction k as [| k IH]; intros [| fuel] nb Hinv Hi Hfuel;
    try lia; try reflexivity.
  cbn [training_loop]. rewrite (inv_total_episodes nb Hinv).
  replace (var_i nb <? 10000)%Z with true
    by (symmetry; apply Z.ltb_lt; lia).
  destruct (episode_spec (rng (var_i nb)) nb Hinv (Hrng _))
    as (action & reward & ag & tr & _ & _ & _ & _ & _ & _ & _ & _ & Hrun).
  pose proof (episode_inv _ _ _ Hinv (Hrng _) Hrun) as Hinv'.
  destruct (episode_vars _ _ _ Hinv (Hrng _) Hrun)
    as (_ & _ & _ & _ & _ & (_ & _ & _ & _ & _ & Hi') & _).
  rewrite Hrun. apply IH; [exact Hinv' | lia | lia].
Qed.

End Training.

(** ** The training run *)

Lemma sample_rng_ok : rng_ok sample_rng.
Proof.
  intros i. unfold draws_ok, sample_rng; simpl.
  split; [lia |]. split; [lia | lra].
Qed.

(** ** Invariants of the training run *)

(** Induction over the passes of the run: a property of the initial
    notebook that every pass preserves holds after any number of passes. *)
Lemma episodes_invariant (rng : Z -> draws) (P : nat -> notebook -> Prop) :
  rng_ok rng ->
  P 0%nat notebook_init ->
  (forall k nb nb',
      notebook_inv nb -> var_i nb = Z.of_nat k -> P k nb ->
      episode (rng (var_i nb)) nb = Ok nb' -> P (S k) nb') ->
  forall k, exists nb,
      episodes k rng notebook_init = Ok nb /\
      notebook_inv nb /\ var_i nb = Z.of_nat k /\ P k nb.
Proof.
  intros Hrng H0 Hstep k. induction k as [| k (nb & Hk & Hinv & Hi & HP)].
  - exists notebook_init.
    split; [reflexivity |]. split; [exact notebook_inv_init |].
    split; [reflexivity | exact H0].
  - destruct (episode_spec (rng (var_i nb)) nb Hinv (Hrng _))
      as (action & reward & ag & tr & _ & _ & _ & _ & _ & _ & _ & _ & Hrun).
    eexists. split; [cbn [episodes]; rewrite Hk; cbn [bind]; exact Hrun |].
    split; [apply (episode_inv _ _ _ Hinv (Hrng _) Hrun) |].
    split.
    + destruct (episode_vars _ _ _ Hinv (Hrng _) Hrun)
        as (_ & _ & _ & _ & _ & (_ & _ & _ & _ & _ & Hi') & _).
      rewrite Hi', Hi. lia.
    + apply (Hstep k nb); assumption.
Qed.










(** C9.  In every pass of the training run the sampled state is a valid row
    index and the chosen action a valid column index, whichever branch chose
    it; the table lookup of [pullArm] at (state, action) is inside the table
    and no operation of the pass raises; and the reward is [+1] or [-1]. *)
Theorem episode_indices_in_range (rng : Z -> draws) (k : nat) :
  rng_ok rng ->
  exists nb nb' s action reward threshold,
    episodes k rng notebook_init = Ok nb /\
    var_i nb = Z.of_nat k /\
    episode (rng (var_i nb)) nb = Ok nb' /\
    var_s nb' = Some s /\ state (cBandit nb') = s /\
    (s < num_bandits (cBandit nb'))%nat /\ num_bandits (cBandit nb') = 3%nat /\
    var_action nb' = Some action /\
    select_action nb s (rng (var_i nb)) = Ok action /\
    (action < num_actions (cBandit nb'))%nat /\
    num_actions (cBandit nb') = 4%nat /\
    index2 (bandits (cBandit nb')) s action = Ok threshold /\
    pullArm (cBandit nb') action (randn_reward (rng (var_i nb))) = Ok reward /\
    var_reward nb' = Some reward /\
    (reward = 1%Z \/ reward = (-1)%Z).
Proof.
  intros Hrng.
  destruct (episodes_ok rng Hrng k) as (nb & Hk & Hinv & Hi).
  destruct (episode_spec (rng (var_i nb)) nb Hinv (Hrng _))
    as (action0 & reward0 & ag0 & tr0 & _ & _ & _ & _ & _ & _ & _ & _ & Hrun).
  destruct (episode_vars _ _ _ Hinv (Hrng _) Hrun)
    as (action & reward & g & tr
        & (Hs & Ha & Hsel & Hpull & Hpm & Hup & Hadd & Htr)
        & (HcB & Hag & Htot & Hte & Heps & Hi')
        & (Hvs & Hva & Hvr & Hww) & Hout).
  pose proof (episode_inv _ _ _ Hinv (Hrng _) Hrun) as Hinv'.
  eexists nb, _, (randint_bandit (rng (var_i nb))), action, reward,
    (entry bandit_table (randint_bandit (rng (var_i nb))) action).
  split; [exact Hk |]. split; [exact Hi |]. split; [exact Hrun |].
  rewrite (inv_num_bandits _ Hinv'), (inv_num_actions _ Hinv'),
    (inv_table _ Hinv').
  repeat (split; [first [assumption | reflexivity | rewrite HcB; reflexivity] |]).
  split.
  - apply (index2_entry 3 4); [exact bandit_wf_init | assumption | assumption].
  - rewrite HcB. repeat split; assumption.
Qed.

Lemma episode_indices_in_range_witness :
  rng_ok sample_rng /\
  exists nb nb' s action reward threshold,
    episodes 0 sample_rng notebook_init = Ok nb /\
    var_i nb = Z.of_nat 0 /\
    episode (sample_rng (var_i nb)) nb = Ok nb' /\
    var_s nb' = Some s /\ state (cBandit nb') = s /\
    (s < num_bandits (cBandit nb'))%nat /\ num_bandits (cBandit nb') = 3%nat /\
    var_action nb' = Some action /\
    select_action nb s (sample_rng (var_i nb)) = Ok action /\
    (action < num_actions (cBandit nb'))%nat /\
    num_actions (cBandit nb') = 4%nat /\
    index2 (bandits (cBandit nb')) s action = Ok threshold /\
    pullArm (cBandit nb') action (randn_reward (sample_rng (var_i nb)))
      = Ok reward /\
    var_reward nb' = Some reward /\
    (reward = 1%Z \/ reward = (-1)%Z).
Proof.
  split; [exact sample_rng_ok |].
  exact (episode_indices_in_range sample_rng 0 sample_rng_ok).
Defined.

Lemma row_means_shape (n m : nat) (W : matrix) :
  has_shape n (S m) W ->
  row_means W = map (fun row => Rsum row / INR (S m)) W /\
  length (row_means W) = n.
Proof.
  intros [Hlen Hrows]. unfold row_means. split.
  - apply map_ext_in. intros row Hin.
    rewrite Forall_forall in Hrows. rewrite (Hrows row Hin). reflexivity.
  - rewrite length_map. exact Hlen.
Qed.

(** The number of diagnostic lines written by the first [k] passes. *)
Lemma episodes_stdout_length (rng : Z -> draws) (k : nat) :
  rng_ok rng ->
  exists nb, episodes k rng notebook_init = Ok nb /\
             length (stdout nb) = Z.to_nat ((Z.of_nat k + 499) / 500).
Proof.
  intros Hrng. induction k as [| k (nb & Hk & Hlen)].
  - exists notebook_init. split; reflexivity.
  - destruct (episodes_ok rng Hrng k) as (nb0 & Hk0 & Hinv & Hi).
    assert (nb0 = nb) by congruence. subst nb0.
    destruct (episodes_ok rng Hrng (S k)) as (nb' & Hk' & _ & _).
    pose proof Hk' as Hstep. simpl in Hstep. rewrite Hk in Hstep.
    simpl in Hstep.
    destruct (episode_vars _ _ _ Hinv (Hrng _) Hstep)
      as (action & reward & g & tr & _ & _ & _ & Hout).
    exists nb'. split; [exact Hk' |].
    rewrite Hout, length_app, Hlen, Hi.
    destruct (Z.eqb_spec (Z.of_nat k mod 500) 0) as [Hz | Hnz]; simpl length.
    + replace ((Z.of_nat (S k) + 499) / 500)%Z
        with ((Z.of_nat k + 499) / 500 + 1)%Z
        by (Z.div_mod_to_equations; lia).
      Z.div_mod_to_equations; lia.
    + replace ((Z.of_nat (S k) + 499) / 500)%Z
        with ((Z.of_nat k + 499) / 500)%Z
        by (Z.div_mod_to_equations; lia).
      lia.
Qed.

(** C6.  In every pass the action is the drawn random index when the uniform
    draw is below [eps], and the greedy action of the network otherwise;
    [eps] is 0.1 and the learning rate 0.001 in every pass; and the loop
    makes exactly 10000 passes: it ends, with the counter at 10000, as soon
    as the fuel exceeds 10000, and not before. *)
Theorem training_loop_policy (rng : Z -> draws) (k fuel : nat) :
  rng_ok rng ->
  (exists nb nb',
     episodes k rng notebook_init = Ok nb /\
     var_i nb = Z.of_nat k /\
     episode (rng (var_i nb)) nb = Ok nb' /\
     eps nb = 0.1 /\ eps nb' = eps nb /\
     lr (myAgent nb) = 0.001 /\ lr (myAgent nb') = lr (myAgent nb) /\
     total_episodes nb = 10000%Z /\
     let d := rng (var_i nb) in
     (0 <= rand_explore d < 1) /\
     (rand_explore d < 0.1 ->
      var_action nb' = Some (randint_action d) /\
      (randint_action d < num_actions (cBandit nb))%nat) /\
     (~ rand_explore d < 0.1 ->
      exists a, chosen_action (myAgent nb) (randint_bandit d) = Ok a /\
                var_action nb' = Some a)) /\
  ((Z.to_nat 10000 < fuel)%nat ->
   exists nb, training_loop fuel rng notebook_init = Some (Ok nb) /\
              episodes (Z.to_nat 10000) rng notebook_init = Ok nb /\
              var_i nb = 10000%Z) /\
  ((fuel <= Z.to_nat 10000)%nat ->
   training_loop fuel rng notebook_init = None).
Proof.
  intros Hrng. split; [| split].
  - destruct (episodes_ok rng Hrng k) as (nb & Hk & Hinv & Hi).
    destruct (episodes_ok rng Hrng (S k)) as (nb' & Hk' & Hinv' & _).
    pose proof Hk' as Hstep. simpl in Hstep. rewrite Hk in Hstep.
    simpl in Hstep.
    destruct (episode_vars _ _ _ Hinv (Hrng _) Hstep)
      as (action & reward & g & tr
          & (Hs & Ha & Hsel & _)
          & (_ & _ & _ & _ & Heps & _)
          & (_ & Hva & _) & _).
    exists nb, nb'.
    split; [exact Hk |]. split; [exact Hi |]. split; [exact Hstep |].
    split; [exact (inv_eps nb Hinv) |]. split; [exact Heps |].
    split; [exact (inv_lr nb Hinv) |].
    split; [rewrite (inv_lr nb Hinv); exact (inv_lr nb' Hinv') |].
    split; [exact (inv_total_episodes nb Hinv) |].
    cbv zeta. unfold select_action in Hsel.
    rewrite (inv_eps nb Hinv) in Hsel.
    destruct (Hrng (var_i nb)) as (_ & Hda & Hdu). simpl in Hda.
    split; [exact Hdu |].
    destruct (Rltb (rand_explore (rng (var_i nb))) 0.1) eqn:E.
    + apply Rltb_true in E. injection Hsel as <-. split.
      * intros _. split; [exact Hva |].
        rewrite (inv_num_actions nb Hinv). exact Hda.
      * intros Hn. contradiction.
    + apply Rltb_false in E. split.
      * intros Hlt. lra.
      * intros _. exists action. split; [exact Hsel | exact Hva].
  - intros Hfuel.
    destruct (episodes_ok rng Hrng (Z.to_nat 10000)) as (nb & Hk & Hinv & Hi).
    exists nb. split; [| split; [exact Hk | rewrite Hi; lia]].
    rewrite <- Hk.
    apply training_loop_episodes;
      [exact Hrng | exact notebook_inv_init | simpl var_i; lia | exact Hfuel].
  - intros Hfuel.
    apply (training_loop_out_of_fuel rng Hrng (Z.to_nat 10000));
      [exact notebook_inv_init | simpl var_i; lia | exact Hfuel].
Qed.

Lemma training_loop_policy_witness :
  rng_ok sample_rng /\
  exists nb,
    training_loop (S (Z.to_nat 10000)) sample_rng notebook_init
    = Some (Ok nb) /\
    episodes (Z.to_nat 10000) sample_rng notebook_init = Ok nb /\
    var_i nb = 10000%Z.
Proof.
  split; [exact sample_rng_ok |].
  apply (training_loop_policy sample_rng 0 (S (Z.to_nat 10000))
           sample_rng_ok).
  apply Nat.lt_succ_diag_r.
Defined.

(** C8.  The pass with counter [i] writes one line exactly when [i] is a
    multiple of 500: the text naming the 3 bandits followed by the array of
    the means of the rows of the score table (each row sum divided by 4), as
    it stands after the pass; the first [k] passes have written one line per
    multiple of 500 below [k]; and the report changes neither the agent nor
    the score table, which after the pass are the results of [update] and of
    the addition into the table. *)
Theorem diagnostic_report (rng : Z -> draws) (k : nat) :
  rng_ok rng ->
  (exists nb nb',
     episodes k rng notebook_init = Ok nb /\
     var_i nb = Z.of_nat k /\
     episode (rng (var_i nb)) nb = Ok nb' /\
     length (stdout nb) = Z.to_nat ((Z.of_nat k + 499) / 500) /\
     ((Z.of_nat k mod 500 = 0)%Z ->
      stdout nb'
      = stdout nb ++
        [TextArray "Mean reward for each of the 3 bandits: "
           (map (fun row => Rsum row / 4) (total_reward nb'))] /\
      length (total_reward nb') = 3%nat) /\
     ((Z.of_nat k mod 500 <> 0)%Z -> stdout nb' = stdout nb) /\
     (exists s action reward,
        var_s nb' = Some s /\ var_action nb' = Some action /\
        var_reward nb' = Some reward /\
        update (myAgent nb) s action (IZR reward) = Ok (myAgent nb') /\
        add_at (total_reward nb) s action (IZR reward)
        = Ok (total_reward nb'))) /\
  (forall st, myAgent (diagnostic st) = myAgent st /\
              total_reward (diagnostic st) = total_reward st /\
              cBandit (diagnostic st) = cBandit st /\
              var_i (diagnostic st) = var_i st).
Proof.
  intros Hrng. split.
  - destruct (episodes_ok rng Hrng k) as (nb & Hk & Hinv & Hi).
    destruct (episodes_ok rng Hrng (S k)) as (nb' & Hk' & Hinv' & _).
    pose proof Hk' as Hstep. simpl in Hstep. rewrite Hk in Hstep.
    simpl in Hstep.
    destruct (episodes_stdout_length rng k Hrng) as (nb0 & Hk0 & Hlen).
    assert (nb0 = nb) by congruence. subst nb0.
    destruct (episode_vars _ _ _ Hinv (Hrng _) Hstep)
      as (action & reward & g & tr
          & (_ & _ & _ & _ & _ & Hup & Hadd & Htr)
          & (_ & Hag & Htot & _)
          & (Hvs & Hva & Hvr & _) & Hout).
    exists nb, nb'.
    split; [exact Hk |]. split; [exact Hi |]. split; [exact Hstep |].
    split; [exact Hlen |].
    rewrite Hi in Hout. rewrite Htot.
    destruct (row_means_shape 3 3 tr Htr) as (Hmeans & Hlm).
    replace (INR 4) with 4 in Hmeans by (simpl; lra).
    split; [| split].
    + intros Hz. rewrite Hout.
      replace (Z.of_nat k mod 500 =? 0)%Z with true
        by (symmetry; apply Z.eqb_eq; exact Hz).
      rewrite Hmeans. split; [reflexivity | apply Htr].
    + intros Hnz. rewrite Hout.
      replace (Z.of_nat k mod 500 =? 0)%Z with false
        by (symmetry; apply Z.eqb_neq; exact Hnz).
      apply app_nil_r.
    + exists (randint_bandit (rng (var_i nb))), action, reward.
      rewrite Hag. repeat split; assumption.
  - intros st. pose proof (diagnostic_frame st) as H. tauto.
Qed.

Lemma diagnostic_report_witness :
  rng_ok sample_rng /\
  myAgent (diagnostic notebook_init) = myAgent notebook_init.
Proof.
  split; [exact sample_rng_ok |].
  apply (diagnostic_report sample_rng 0 sample_rng_ok).
Defined.

(** ** The summary cell *)

Lemma read_str (n : nat) : read_nat (str n) = Some n.
Proof.
  unfold read_nat, str.
  destruct (Nat.to_uint n) eqn:E;
    try (rewrite NilZero.usu by discriminate; simpl;
         rewrite <- E, Unsigned.of_to; reflexivity).
  rewrite NilZero.usu_nil. simpl.
  rewrite <- (Unsigned.of_to n), E. reflexivity.
Qed.

Lemma summary_row_spec (cB : contextual_bandit) (w : matrix) (a : nat) :
  (a < length w)%nat -> nth a w [] <> [] ->
  (a < length (bandits cB))%nat -> nth a (bandits cB) [] <> [] ->
  exists k best,
    argmax (nth a w []) = Ok k /\ first_max (nth a w []) k /\
    argmin (nth a (bandits cB) []) = Ok best /\
    first_min (nth a (bandits cB) []) best /\
    summary_row cB w a = Ok [announce k a; verdict (Nat.eqb k best)].
Proof.
  intros Ha Hrow Hb Hbrow.
  destruct (argmax_first_max _ Hrow) as (k & Hk & Hfm).
  destruct (argmin_first_min _ Hbrow) as (best & Hbest & Hfb).
  exists k, best. repeat (split; [assumption |]).
  unfold summary_row.
  rewrite (nth_error_nth' w []) by exact Ha. cbn [of_option bind].
  rewrite Hk. cbn [bind].
  rewrite (nth_error_nth' (bandits cB) []) by exact Hb. cbn [of_option bind].
  rewrite Hbest. cbn [bind].
  unfold announce, verdict. destruct (Nat.eqb k best); reflexivity.
Qed.

(** The designed best arm of each row of the table. *)
Lemma bandit_table_argmin :
  argmin (nth 0 bandit_table []) = Ok 3%nat /\
  argmin (nth 1 bandit_table []) = Ok 1%nat /\
  argmin (nth 2 bandit_table []) = Ok 0%nat.
Proof.
  unfold argmin, arg_ext, arg_from, lt_min, Rltb; simpl.
  repeat match goal with
         | |- context [Rlt_dec ?x ?y] => destruct (Rlt_dec x y); try lra
         end.
  repeat split; reflexivity.
Qed.

Lemma verdict_right (b : bool) :
  (verdict b = Text "...and it was right!" <-> b = true) /\
  (verdict b = Text "...and it was wrong!" <-> b = false).
Proof. destruct b; simpl; repeat split; intros; congruence. Qed.

Lemma has_shape_row_nonempty (n m : nat) (W : matrix) (a : nat) :
  has_shape n (S m) W -> (a < n)%nat -> nth a W [] <> [].
Proof.
  intros HW Ha E. pose proof (has_shape_rows n (S m) W a HW Ha) as Hlen.
  rewrite E in Hlen. discriminate.
Qed.

(** The summary cell on a notebook that satisfies the invariant and has
    [ww] bound: no lookup raises, and the output is the lines of the three
    rows in order. *)
Lemma summary_ok (nb : notebook) (w : matrix) :
  notebook_inv nb -> ww nb = Some w ->
  exists l0 l1 l2,
    summary_row (cBandit nb) w 0 = Ok l0 /\
    summary_row (cBandit nb) w 1 = Ok l1 /\
    summary_row (cBandit nb) w 2 = Ok l2 /\
    summary nb = Ok (l0 ++ l1 ++ l2).
Proof.
  intros Hinv Hww. pose proof (inv_ww nb Hinv w Hww) as Hw.
  assert (Hb : has_shape 3 4 (bandits (cBandit nb)))
    by (rewrite (inv_table nb Hinv); exact bandit_wf_init).
  assert (Hrow : forall a, (a < 3)%nat ->
                           exists l, summary_row (cBandit nb) w a = Ok l).
  { intros a Ha.
    destruct (summary_row_spec (cBandit nb) w a) as (k & best & H).
    - destruct Hw as [-> _]. exact Ha.
    - apply (has_shape_row_nonempty 3 3); assumption.
    - destruct Hb as [-> _]. exact Ha.
    - apply (has_shape_row_nonempty 3 3); assumption.
    - eexists. apply H. }
  destruct (Hrow 0%nat) as (l0 & H0); [lia |].
  destruct (Hrow 1%nat) as (l1 & H1); [lia |].
  destruct (Hrow 2%nat) as (l2 & H2); [lia |].
  exists l0, l1, l2. repeat (split; [assumption |]).
  unfold summary. rewrite Hww. cbn [of_option bind].
  rewrite (inv_num_bandits nb Hinv). cbn [seq summary_loop].
  rewrite H0, H1, H2. cbn [bind]. rewrite app_nil_r. reflexivity.
Qed.

(** The notebook at the end of the training cell. *)
Lemma training_result (rng : Z -> draws) (fuel : nat) :
  rng_ok rng -> (Z.to_nat 10000 < fuel)%nat ->
  exists prev nb,
    episodes (Z.to_nat 9999) rng notebook_init = Ok prev /\
    notebook_inv prev /\ var_i prev = 9999%Z /\
    episode (rng 9999%Z) prev = Ok nb /\
    notebook_inv nb /\
    training_loop fuel rng notebook_init = Some (Ok nb).
Proof.
  intros Hrng Hfuel.
  destruct (episodes_ok rng Hrng (Z.to_nat 9999)) as (prev & Hp & Hinvp & Hip).
  destruct (episodes_ok rng Hrng (Z.to_nat 10000)) as (nb & Hk & Hinv & Hi).
  assert (Hlast : episodes (Z.to_nat 10000) rng notebook_init
                  = episode (rng (var_i prev)) prev).
  { replace (Z.to_nat 10000) with (S (Z.to_nat 9999)) by lia.
    cbn [episodes]. rewrite Hp. reflexivity. }
  assert (Hip' : var_i prev = 9999%Z) by (rewrite Hip; lia).
  exists prev, nb. split; [exact Hp |]. split; [exact Hinvp |].
  split; [exact Hip' |].
  split; [rewrite <- Hip', <- Hlast; exact Hk |].
  split; [exact Hinv |].
  rewrite <- Hk.
  apply training_loop_episodes;
    [exact Hrng | exact notebook_inv_init | simpl var_i; lia | exact Hfuel].
Qed.

(** C7.  For each bandit row [a], the summary names the first position [k]
    of a largest entry of row [a] of the fetched weights [ww], and says
    "right" exactly when [k] is the first position of a smallest threshold
    of row [a] of the bandit table (positions 3, 1 and 0 for the three
    rows), and "wrong" otherwise.  At the end of the training cell [ww] is
    bound to the weights fetched in the last pass (those after its update,
    or those before it), and the summary cell prints the lines of the three
    rows. *)
Theorem final_report (cB : contextual_bandit) (w : matrix) (a : nat)
  (rng : Z -> draws) (fuel : nat) :
  bandits cB = bandit_table -> has_shape 3 4 w -> (a < 3)%nat ->
  rng_ok rng -> (Z.to_nat 10000 < fuel)%nat ->
  (exists k best,
     argmax (nth a w []) = Ok k /\ first_max (nth a w []) k /\
     argmin (nth a bandit_table []) = Ok best /\
     first_min (nth a bandit_table []) best /\
     summary_row cB w a = Ok [announce k a; verdict (Nat.eqb k best)] /\
     (verdict (Nat.eqb k best) = Text "...and it was right!" <-> k = best) /\
     (verdict (Nat.eqb k best) = Text "...and it was wrong!" <-> k <> best)) /\
  (argmin (nth 0 bandit_table []) = Ok 3%nat /\
   argmin (nth 1 bandit_table []) = Ok 1%nat /\
   argmin (nth 2 bandit_table []) = Ok 0%nat) /\
  (exists prev nb fetched l0 l1 l2,
     training_loop fuel rng notebook_init = Some (Ok nb) /\
     episodes (Z.to_nat 9999) rng notebook_init = Ok prev /\
     episode (rng 9999%Z) prev = Ok nb /\
     ww nb = Some fetched /\ has_shape 3 4 fetched /\
     fetched = (if fetch_after_update (rng 9999%Z)
                then weights (myAgent nb) else weights (myAgent prev)) /\
     summary_row (cBandit nb) fetched 0 = Ok l0 /\
     summary_row (cBandit nb) fetched 1 = Ok l1 /\
     summary_row (cBandit nb) fetched 2 = Ok l2 /\
     summary nb = Ok (l0 ++ l1 ++ l2)).
Proof.
  intros HcB Hw Ha Hrng Hfuel. split; [| split].
  - destruct (summary_row_spec cB w a) as (k & best & Hk & Hfm & Hb & Hfb & Hs).
    + destruct Hw as [-> _]. exact Ha.
    + apply (has_shape_row_nonempty 3 3); assumption.
    + rewrite HcB. simpl. exact Ha.
    + rewrite HcB. apply (has_shape_row_nonempty 3 3);
        [exact bandit_wf_init | exact Ha].
    + rewrite HcB in Hb, Hfb. exists k, best.
      repeat (split; [assumption |]).
      destruct (verdict_right (Nat.eqb k best)) as [Hr Hwr].
      split.
      * rewrite Hr. apply Nat.eqb_eq.
      * rewrite Hwr. apply Nat.eqb_neq.
  - exact bandit_table_argmin.
  - destruct (training_result rng fuel Hrng Hfuel)
      as (prev & nb & Hp & Hinvp & Hip & Hlast & Hinv & Hloop).
    pose proof (Hrng 9999%Z) as Hd. rewrite <- Hip in Hlast, Hd.
    destruct (episode_vars _ _ _ Hinvp Hd Hlast)
      as (action & reward & g & tr & _ & (_ & Hag & _) & (_ & _ & _ & Hww) & _).
    rewrite Hip in Hlast, Hww. rewrite <- Hag in Hww.
    destruct (summary_ok nb _ Hinv Hww) as (l0 & l1 & l2 & H0 & H1 & H2 & Hsum).
    eexists prev, nb, _, l0, l1, l2.
    split; [exact Hloop |]. split; [exact Hp |]. split; [exact Hlast |].
    split; [exact Hww |]. split; [exact (inv_ww nb Hinv _ Hww) |].
    split; [reflexivity |].
    repeat (split; [assumption |]). exact Hsum.
Qed.

Lemma final_report_witness :
  bandits contextual_bandit_init = bandit_table /\
  has_shape 3 4 (full 3 4 1) /\ rng_ok sample_rng /\
  argmin (nth 0 bandit_table []) = Ok 3%nat.
Proof.
  split; [reflexivity |]. split; [apply has_shape_full |].
  split; [exact sample_rng_ok |].
  apply (final_report contextual_bandit_init (full 3 4 1) 0 sample_rng
           (S (Z.to_nat 10000))).
  - reflexivity.
  - apply has_shape_full.
  - lia.
  - exact sample_rng_ok.
  - lia.
Defined.

(** C10.  In the summary the action and bandit numbers are printed as
    [argmax + 1] and [a + 1], so that the numerals read back as one more
    than the positions, while the verdict compares the positions
    themselves, [argmax] of the weight row with [argmin] of the threshold
    row. *)
Theorem summary_numbering (cB : contextual_bandit) (w : matrix) (a : nat) :
  (a < length w)%nat -> nth a w [] <> [] ->
  (a < length (bandits cB))%nat -> nth a (bandits cB) [] <> [] ->
  exists k best action_text bandit_text,
    argmax (nth a w []) = Ok k /\
    argmin (nth a (bandits cB) []) = Ok best /\
    summary_row cB w a
    = Ok [Text ("The agent thinks action " ++ action_text ++ " for bandit "
                ++ bandit_text ++ " is the most promising....");
          if Nat.eqb k best then Text "...and it was right!"
          else Text "...and it was wrong!"] /\
    action_text = str (k + 1) /\ bandit_text = str (a + 1) /\
    read_nat action_text = Some (S k) /\
    read_nat bandit_text = Some (S a).
Proof.
  intros Ha Hrow Hb Hbrow.
  destruct (summary_row_spec cB w a Ha Hrow Hb Hbrow)
    as (k & best & Hk & _ & Hbest & _ & Hs).
  exists k, best, (str (k + 1)), (str (a + 1)).
  split; [exact Hk |]. split; [exact Hbest |]. split; [exact Hs |].
  split; [reflexivity |]. split; [reflexivity |].
  rewrite !read_str. split; f_equal; lia.
Qed.

Lemma summary_numbering_witness :
  exists k best action_text bandit_text,
    argmax (nth 2 (full 3 4 1) []) = Ok k /\
    argmin (nth 2 (bandits contextual_bandit_init) []) = Ok best /\
    summary_row contextual_bandit_init (full 3 4 1) 2
    = Ok [Text ("The agent thinks action " ++ action_text ++ " for bandit "
                ++ bandit_text ++ " is the most promising....");
          if Nat.eqb k best then Text "...and it was right!"
          else Text "...and it was wrong!"] /\
    action_text = str (k + 1) /\ bandit_text = str (2 + 1) /\
    read_nat action_text = Some (S k) /\
    read_nat bandit_text = Some 3%nat.
Proof.
  apply (summary_numbering contextual_bandit_init (full 3 4 1) 2);
    simpl; try lia; discriminate.
Defined.

(** * Further properties of the code *)

(** ** Bounds of the table lookup *)

Lemma np_axis_spec (n : nat) (i : Z) :
  ((- Z.of_nat n <= i < Z.of_nat n)%Z ->
   np_axis n i = Ok (Z.to_nat (i mod Z.of_nat n)) /\
   (Z.to_nat (i mod Z.of_nat n) < n)%nat) /\
  (~ (- Z.of_nat n <= i < Z.of_nat n)%Z -> np_axis n i = Raised IndexError).
Proof.
  unfold np_axis. split.
  - intros Hi.
    destruct (Z.leb_spec 0 i) as [H0 | H0]; cbn [andb].
    + replace (i <? Z.of_nat n)%Z with true
        by (symmetry; apply Z.ltb_lt; lia).
      rewrite Z.mod_small by lia. split; [reflexivity | lia].
    + replace (- Z.of_nat n <=? i)%Z with true
        by (symmetry; apply Z.leb_le; lia).
      replace (i <? 0)%Z with true by (symmetry; apply Z.ltb_lt; lia).
      cbn [andb].
      replace (i mod Z.of_nat n)%Z with (i + Z.of_nat n)%Z.
      * split; [reflexivity | lia].
      * apply Z.mod_unique with (q := (-1)%Z); lia.
  - intros Hi.
    destruct (Z.leb_spec 0 i) as [H0 | H0]; cbn [andb].
    + replace (i <? Z.of_nat n)%Z with false
        by (symmetry; apply Z.ltb_ge; lia).
      replace (i <? 0)%Z with false by (symmetry; apply Z.ltb_ge; lia).
      rewrite andb_false_r. reflexivity.
    + replace (- Z.of_nat n <=? i)%Z with false
        by (symmetry; apply Z.leb_gt; lia).
      reflexivity.
Qed.

Lemma np_axis_of_nat (n i : nat) :
  np_axis n (Z.of_nat i)
  = if (i <? n)%nat then Ok i else Raised IndexError.
Proof.
  unfold np_axis.
  replace (0 <=? Z.of_nat i)%Z with true by (symmetry; apply Z.leb_le; lia).
  cbn [andb]. destruct (Nat.ltb_spec i n) as [H | H].
  - replace (Z.of_nat i <? Z.of_nat n)%Z with true
      by (symmetry; apply Z.ltb_lt; lia).
    rewrite Nat2Z.id. reflexivity.
  - replace (Z.of_nat i <? Z.of_nat n)%Z with false
      by (symmetry; apply Z.ltb_ge; lia).
    replace (Z.of_nat i <? 0)%Z with false
      by (symmetry; apply Z.ltb_ge; lia).
    rewrite andb_false_r. reflexivity.
Qed.

(** On the indices the notebook itself produces, which are not negative,
    the lookup is [index2]. *)
Lemma index2_int_of_nat (W : matrix) (i j : nat) :
  index2_int W (Z.of_nat i) (Z.of_nat j) = index2 W i j.
Proof.
  unfold index2_int, index2. rewrite np_axis_of_nat.
  destruct (Nat.ltb_spec i (length W)) as [Hi | Hi]; cbn [bind].
  - destruct (nth_error W i) as [row |] eqn:Erow; cbn [of_option bind];
      [| reflexivity].
    rewrite np_axis_of_nat.
    destruct (Nat.ltb_spec j (length row)) as [Hj | Hj]; cbn [bind];
      [reflexivity |].
    replace (nth_error row j) with (@None R)
      by (symmetry; apply nth_error_None; exact Hj).
    reflexivity.
  - replace (nth_error W i) with (@None (list R))
      by (symmetry; apply nth_error_None; exact Hi).
    reflexivity.
Qed.

Lemma index2_int_spec (n m : nat) (W : matrix) (i j : Z) :
  has_shape n m W ->
  ((- Z.of_nat n <= i < Z.of_nat n)%Z ->
   (- Z.of_nat m <= j < Z.of_nat m)%Z ->
   index2_int W i j
   = Ok (entry W (Z.to_nat (i mod Z.of_nat n))
           (Z.to_nat (j mod Z.of_nat m)))) /\
  (~ ((- Z.of_nat n <= i < Z.of_nat n)%Z /\
      (- Z.of_nat m <= j < Z.of_nat m)%Z) ->
   index2_int W i j = Raised IndexError).
Proof.
  intros HW. pose proof HW as [Hlen _]. unfold index2_int. rewrite Hlen.
  destruct (np_axis_spec n i) as [Hin Hout].
  assert (Hcases : (- Z.of_nat n <= i < Z.of_nat n)%Z
                   \/ ~ (- Z.of_nat n <= i < Z.of_nat n)%Z) by lia.
  destruct Hcases as [Hi | Hi].
  - destruct (Hin Hi) as [Hax Hlt]. rewrite Hax. cbn [bind].
    pose proof (has_shape_rows n m W _ HW Hlt) as Hrow.
    rewrite (nth_error_nth' W []) by lia. cbn [of_option bind]. rewrite Hrow.
    destruct (np_axis_spec m j) as [Hjn Hjout].
    split.
    + intros _ Hj. destruct (Hjn Hj) as [Hax' Hlt']. rewrite Hax'.
      cbn [bind]. rewrite (nth_error_nth' _ 0) by lia. reflexivity.
    + intros Hn. rewrite Hjout by tauto. reflexivity.
  - rewrite (Hout Hi). cbn [bind].
    split; [intros H; contradiction | reflexivity].
Qed.

(** X1.  With the state and the action as Python integers, on a table of
    [n] rows and [m] columns: [pullArm] raises, and then numpy's
    [IndexError], exactly when the stored state is outside [-n .. n-1] or
    the action outside [-m .. m-1]; a negative index inside these ranges
    is not an error but counts from the end, so [pullArm(-1)] returns the
    reward of the last arm; in every case without an error the result is
    the reward [+1] or [-1] of the entry read; and on indices that are not
    negative this is [pullArm]. *)
Theorem pullArm_int_bounds (n m : nat) (table : matrix) (state0 action : Z)
  (randn : R) :
  has_shape n m table ->
  (pullArm_int table state0 action randn = Raised IndexError <->
   ~ ((- Z.of_nat n <= state0 < Z.of_nat n)%Z /\
      (- Z.of_nat m <= action < Z.of_nat m)%Z)) /\
  ((- Z.of_nat n <= state0 < Z.of_nat n)%Z ->
   (- Z.of_nat m <= action < Z.of_nat m)%Z ->
   pullArm_int table state0 action randn
   = Ok (if Rltb (entry table (Z.to_nat (state0 mod Z.of_nat n))
                    (Z.to_nat (action mod Z.of_nat m))) randn
         then 1%Z else (-1)%Z)) /\
  (forall (self : contextual_bandit) (a : nat),
      pullArm self a randn
      = pullArm_int (bandits self) (Z.of_nat (state self)) (Z.of_nat a)
          randn).
Proof.
  intros HW.
  destruct (index2_int_spec n m table state0 action HW) as [Hin Hout].
  split; [| split].
  - unfold pullArm_int. split.
    + intros Hraise [Hs Ha]. rewrite (Hin Hs Ha) in Hraise.
      cbn [bind] in Hraise. destruct (Rltb _ randn); discriminate.
    + intros Hn. rewrite (Hout Hn). reflexivity.
  - intros Hs Ha. unfold pullArm_int. rewrite (Hin Hs Ha). cbn [bind].
    destruct (Rltb _ randn); reflexivity.
  - intros self a. unfold pullArm, pullArm_int.
    rewrite index2_int_of_nat. reflexivity.
Qed.

Lemma pullArm_int_bounds_witness :
  has_shape 3 4 bandit_table /\
  pullArm_int bandit_table 0 (-1) 0 = Ok 1%Z /\
  pullArm_int bandit_table 0 4 0 = Raised IndexError.
Proof.
  assert (HW : has_shape 3 4 bandit_table) by exact bandit_wf_init.
  split; [exact HW |]. split.
  - destruct (pullArm_int_bounds 3 4 bandit_table 0 (-1) 0 HW) as (_ & H & _).
    rewrite H by (simpl; lia).
    replace (Rltb _ 0) with true; [reflexivity |].
    symmetry. apply Rltb_true. unfold entry; simpl. lra.
  - apply (pullArm_int_bounds 3 4 bandit_table 0 4 0 HW). simpl. lia.
Defined.

(** ** The loss and one gradient step *)

(** X2.  The slice that selects the responsible weight raises exactly when
    the action is outside the output vector, whatever the state: [loss] and
    [update] then raise TensorFlow's invalid-argument error, and for an
    action inside the vector [update] never raises. *)
Theorem update_action_bounds (ag : agent) (s a : nat) (r : R) :
  ((a_size ag <= a)%nat ->
   responsible_weight ag s a = Raised InvalidArgument /\
   loss ag s a r = Raised InvalidArgument /\
   update ag s a r = Raised InvalidArgument) /\
  ((a < a_size ag)%nat -> exists ag', update ag s a r = Ok ag').
Proof.
  split.
  - intros Ha.
    assert (Hrw : responsible_weight ag s a = Raised InvalidArgument).
    { unfold responsible_weight.
      replace (nth_error (output ag s) a) with (@None R)
        by (symmetry; apply nth_error_None; rewrite length_output; exact Ha).
      reflexivity. }
    split; [exact Hrw |].
    unfold update, loss. rewrite Hrw. split; reflexivity.
  - intros Ha. unfold update, loss, responsible_weight.
    rewrite (nth_error_nth' _ 0) by (rewrite length_output; exact Ha).
    cbn [of_option bind]. eexists. reflexivity.
Qed.

Lemma update_action_bounds_witness :
  update (agent_init 0.001 3 4) 0 4 1 = Raised InvalidArgument.
Proof.
  apply (update_action_bounds (agent_init 0.001 3 4) 0 4 1).
  simpl. lia.
Defined.








(** ** The greedy action and the update *)













(** ** Bounds on the weights *)



Lemma Rsum_replace (l : list R) (x : R) :
  forall k, (k < length l)%nat ->
            Rsum (firstn k l ++ x :: skipn (S k) l) = Rsum l - nth k l 0 + x.
Proof.
  induction l as [| y t IH]; intros k Hk; [simpl in Hk; lia |].
  destruct k as [| k].
  - change (firstn 0 (y :: t) ++ x :: skipn 1 (y :: t)) with (x :: t).
    unfold Rsum. cbn [fold_right nth]. lra.
  - simpl in Hk. specialize (IH k ltac:(lia)).
    change (firstn (S k) (y :: t) ++ x :: skipn (S (S k)) (y :: t))
      with (y :: (firstn k t ++ x :: skipn (S k) t)).
    unfold Rsum in *. cbn [fold_right nth]. rewrite IH. lra.
Qed.

Lemma add_at_row_sum (n m : nat) (W W' : matrix) (i j : nat) (v : R) :
  has_shape n m W -> (i < n)%nat -> (j < m)%nat ->
  add_at W i j v = Ok W' ->
  forall i', Rsum (nth i' W' [])
             = Rsum (nth i' W []) + (if Nat.eqb i' i then v else 0).
Proof.
  intros HW Hi Hj Hadd i'.
  pose proof (has_shape_rows n m W i HW Hi) as Hrow.
  pose proof HW as [Hlen _]. unfold add_at in Hadd.
  rewrite (nth_error_nth' W []) in Hadd by lia. cbn [of_option bind] in Hadd.
  rewrite (nth_error_nth' _ 0) in Hadd by lia. cbn [of_option bind] in Hadd.
  match type of Hadd with
  | Ok ?x = _ => assert (HW' : W' = x) by congruence
  end.
  subst W'. clear Hadd. rewrite nth_replace by lia.
  destruct (Nat.eqb_spec i' i) as [-> | Hne]; [| lra].
  rewrite Rsum_replace by lia. lra.
Qed.

Lemma nth_row_means (n m : nat) (W : matrix) (i : nat) :
  has_shape n m W -> (i < n)%nat ->
  nth i (row_means W) 0 = Rsum (nth i W []) / INR m.
Proof.
  intros HW Hi. pose proof (has_shape_rows n m W i HW Hi) as Hrow.
  destruct HW as [Hlen _]. unfold row_means.
  rewrite (nth_map_lt _ W i 0 []) by lia. rewrite Hrow. reflexivity.
Qed.

(** X11.  A pass at the state [s] with the reward [r] moves the printed
    mean of row [s] of the score table by [r / 4] and no other mean; after
    [k] passes every row mean lies between [- k / 4] and [k / 4]. *)
Theorem row_means_step (rng : Z -> draws) (k : nat) :
  rng_ok rng ->
  exists nb nb' s reward,
    episodes k rng notebook_init = Ok nb /\
    episode (rng (var_i nb)) nb = Ok nb' /\
    var_s nb' = Some s /\ var_reward nb' = Some reward /\
    (forall i, (i < 3)%nat ->
               nth i (row_means (total_reward nb')) 0
               = nth i (row_means (total_reward nb)) 0
                 + (if Nat.eqb i s then IZR reward / 4 else 0)) /\
    (forall i, (i < 3)%nat ->
               - INR k / 4 <= nth i (row_means (total_reward nb)) 0
               <= INR k / 4).
Proof.
  intros Hrng.
  assert (H4 : INR 4 = 4) by (simpl; lra).
  assert (Hmean : forall nb nb', notebook_inv nb ->
            episode (rng (var_i nb)) nb = Ok nb' ->
            exists s reward,
              var_s nb' = Some s /\ var_reward nb' = Some reward /\
              (reward = 1%Z \/ reward = (-1)%Z) /\
              has_shape 3 4 (total_reward nb') /\
              forall i, Rsum (nth i (total_reward nb') [])
                        = Rsum (nth i (total_reward nb) [])
                          + (if Nat.eqb i s then IZR reward else 0)).
  { intros nb nb' Hinv Hrun.
    destruct (episode_vars _ _ _ Hinv (Hrng _) Hrun)
      as (action & reward & g & tr
          & (Hs & Ha & _ & _ & Hpm & _ & Hadd & Htr)
          & (_ & _ & Htot & _) & (Hvs & _ & Hvr & _) & _).
    exists (randint_bandit (rng (var_i nb))), reward.
    rewrite Htot. repeat (split; [assumption |]).
    apply (add_at_row_sum 3 4 _ _ _ action);
      [exact (inv_total_reward nb Hinv) | assumption | assumption | exact Hadd]. }
  destruct (episodes_invariant rng
              (fun k nb => forall i, - INR k <= Rsum (nth i (total_reward nb) [])
                                     <= INR k) Hrng) with (k := k)
    as (nb & Hk & Hinv & _ & HP).
  - intros i. simpl total_reward. simpl INR.
    destruct i as [| [| [| [| i]]]]; unfold Rsum; simpl; lra.
  - clear k. intros k nb nb' Hinv _ HP Hrun i.
    destruct (Hmean nb nb' Hinv Hrun) as (s & reward & _ & _ & Hpm & _ & Hsum).
    rewrite Hsum, S_INR. specialize (HP i).
    destruct (Nat.eqb i s); destruct Hpm as [-> | ->]; lra.
  - destruct (episode_spec (rng (var_i nb)) nb Hinv (Hrng _))
      as (action0 & reward0 & ag0 & tr0 & _ & _ & _ & _ & _ & _ & _ & _ & Hrun).
    destruct (Hmean nb _ Hinv Hrun) as (s & reward & Hvs & Hvr & _ & Htr & Hsum).
    eexists nb, _, s, reward.
    split; [exact Hk |]. split; [exact Hrun |].
    split; [exact Hvs |]. split; [exact Hvr |]. split.
    + intros i Hi.
      rewrite (nth_row_means 3 4 _ i Htr Hi).
      rewrite (nth_row_means 3 4 _ i (inv_total_reward nb Hinv) Hi).
      rewrite Hsum, H4. destruct (Nat.eqb i s); lra.
    + intros i Hi.
      rewrite (nth_row_means 3 4 _ i (inv_total_reward nb Hinv) Hi), H4.
      specialize (HP i). lra.
Qed.

Lemma row_means_step_witness :
  rng_ok sample_rng /\
  exists nb nb' s reward,
    episodes 0 sample_rng notebook_init = Ok nb /\
    episode (sample_rng (var_i nb)) nb = Ok nb' /\
    var_s nb' = Some s /\ var_reward nb' = Some reward /\
    (forall i, (i < 3)%nat ->
               nth i (row_means (total_reward nb')) 0
               = nth i (row_means (total_reward nb)) 0
                 + (if Nat.eqb i s then IZR reward / 4 else 0)) /\
    (forall i, (i < 3)%nat ->
               - INR 0 / 4 <= nth i (row_means (total_reward nb)) 0
               <= INR 0 / 4).
Proof.
  split; [exact sample_rng_ok |].
  exact (row_means_step sample_rng 0 sample_rng_ok).
Defined.

(** ** What the cells print *)

Lemma stdout_invariant (rng : Z -> draws) (k : nat) :
  rng_ok rng ->
  exists nb,
    episodes k rng notebook_init = Ok nb /\ notebook_inv nb /\
    length (stdout nb) = Z.to_nat ((Z.of_nat k + 499) / 500) /\
    Forall is_mean_line (stdout nb).
Proof.
  intros Hrng.
  destruct (episodes_invariant rng
              (fun k nb =>
                 length (stdout nb) = Z.to_nat ((Z.of_nat k + 499) / 500) /\
                 Forall is_mean_line (stdout nb)) Hrng) with (k := k)
    as (nb & Hk & Hinv & _ & HP).
  - split; [reflexivity | constructor].
  - clear k. intros k nb nb' Hinv Hi (Hlen & Hall) Hrun.
    destruct (episode_vars _ _ _ Hinv (Hrng _) Hrun)
      as (action & reward & g & tr & (_ & _ & _ & _ & _ & _ & _ & Htr)
          & _ & _ & Hout).
    rewrite Hout, Hi. split.
    + rewrite length_app, Hlen.
      destruct (Z.eqb_spec (Z.of_nat k mod 500) 0) as [Hz | Hnz]; simpl length.
      * replace ((Z.of_nat (S k) + 499) / 500)%Z
          with ((Z.of_nat k + 499) / 500 + 1)%Z
          by (Z.div_mod_to_equations; lia).
        Z.div_mod_to_equations; lia.
      * replace ((Z.of_nat (S k) + 499) / 500)%Z
          with ((Z.of_nat k + 499) / 500)%Z
          by (Z.div_mod_to_equations; lia).
        lia.
    + apply Forall_app. split; [exact Hall |].
      destruct (Z.of_nat k mod 500 =? 0)%Z; constructor; [| constructor].
      exists (row_means tr). split; [reflexivity |].
      apply (row_means_shape 3 3 tr Htr).
  - exists nb. tauto.
Qed.

(** X12.  The training cell writes exactly 20 lines, one for each multiple
    of 500 below 10000, and every one of them is the fixed text followed by
    an array of three numbers. *)
Theorem training_prints_20_lines (rng : Z -> draws) (fuel : nat) :
  rng_ok rng -> (Z.to_nat 10000 < fuel)%nat ->
  exists nb,
    training_loop fuel rng notebook_init = Some (Ok nb) /\
    length (stdout nb) = 20%nat /\
    Forall is_mean_line (stdout nb).
Proof.
  intros Hrng Hfuel.
  destruct (stdout_invariant rng (Z.to_nat 10000) Hrng)
    as (nb & Hk & _ & Hlen & Hall).
  exists nb. split; [| split; [| exact Hall]].
  - rewrite <- Hk. apply training_loop_episodes;
      [exact Hrng | exact notebook_inv_init | simpl var_i; lia | exact Hfuel].
  - rewrite Hlen, Z2Nat.id by lia. reflexivity.
Qed.

Lemma training_prints_20_lines_witness :
  rng_ok sample_rng /\
  exists nb,
    training_loop (S (Z.to_nat 10000)) sample_rng notebook_init
    = Some (Ok nb) /\
    length (stdout nb) = 20%nat /\
    Forall is_mean_line (stdout nb).
Proof.
  split; [exact sample_rng_ok |].
  apply (training_prints_20_lines sample_rng (S (Z.to_nat 10000))
           sample_rng_ok).
  apply Nat.lt_succ_diag_r.
Defined.

(** X13.  After the training cell the summary cell prints six lines, for the
    bandits 1, 2 and 3 in this order an announcement followed by a verdict,
    and every announced action number is between 1 and 4. *)
Theorem summary_prints_six_lines (rng : Z -> draws) (fuel : nat) :
  rng_ok rng -> (Z.to_nat 10000 < fuel)%nat ->
  exists nb k0 k1 k2 b0 b1 b2,
    training_loop fuel rng notebook_init = Some (Ok nb) /\
    summary nb
    = Ok [announce k0 0; verdict b0; announce k1 1; verdict b1;
          announce k2 2; verdict b2] /\
    (1 <= k0 + 1 <= 4)%nat /\ (1 <= k1 + 1 <= 4)%nat /\
    (1 <= k2 + 1 <= 4)%nat.
Proof.
  intros Hrng Hfuel.
  destruct (training_result rng fuel Hrng Hfuel)
    as (prev & nb & Hp & Hinvp & Hip & Hlast & Hinv & Hloop).
  pose proof (Hrng 9999%Z) as Hd. rewrite <- Hip in Hlast, Hd.
  destruct (episode_vars _ _ _ Hinvp Hd Hlast)
    as (action & reward & g & tr & _ & _ & (_ & _ & _ & Hww) & _).
  set (w := if fetch_after_update (rng (var_i prev))
            then weights g else weights (myAgent prev)) in Hww.
  pose proof (inv_ww nb Hinv w Hww) as Hw.
  assert (Hb : has_shape 3 4 (bandits (cBandit nb)))
    by (rewrite (inv_table nb Hinv); exact bandit_wf_init).
  assert (Hrow : forall a, (a < 3)%nat ->
            exists k b, (k < 4)%nat /\
              summary_row (cBandit nb) w a = Ok [announce k a; verdict b]).
  { intros a Ha.
    destruct (summary_row_spec (cBandit nb) w a)
      as (k & best & _ & (Hlt & _) & _ & _ & Hs);
      [destruct Hw as [-> _]; exact Ha
      | apply (has_shape_row_nonempty 3 3); assumption
      | destruct Hb as [-> _]; exact Ha
      | apply (has_shape_row_nonempty 3 3); assumption |].
    rewrite (has_shape_rows 3 4 _ a Hw Ha) in Hlt.
    exists k, (Nat.eqb k best). split; [exact Hlt | exact Hs]. }
  destruct (Hrow 0%nat) as (k0 & b0 & Hk0 & H0); [lia |].
  destruct (Hrow 1%nat) as (k1 & b1 & Hk1 & H1); [lia |].
  destruct (Hrow 2%nat) as (k2 & b2 & Hk2 & H2); [lia |].
  exists nb, k0, k1, k2, b0, b1, b2.
  split; [exact Hloop |]. split; [| lia].
  unfold summary. rewrite Hww. cbn [of_option bind].
  rewrite (inv_num_bandits nb Hinv). cbn [seq summary_loop].
  rewrite H0, H1, H2. reflexivity.
Qed.

Lemma summary_prints_six_lines_witness :
  rng_ok sample_rng /\
  exists nb k0 k1 k2 b0 b1 b2,
    training_loop (S (Z.to_nat 10000)) sample_rng notebook_init
    = Some (Ok nb) /\
    summary nb
    = Ok [announce k0 0; verdict b0; announce k1 1; verdict b1;
          announce k2 2; verdict b2] /\
    (1 <= k0 + 1 <= 4)%nat /\ (1 <= k1 + 1 <= 4)%nat /\
    (1 <= k2 + 1 <= 4)%nat.
Proof.
  split; [exact sample_rng_ok |].
  apply (summary_prints_six_lines sample_rng (S (Z.to_nat 10000))
           sample_rng_ok).
  apply Nat.lt_succ_diag_r.
Defined.

(** ** The exploration threshold *)

(** X14.  The uniform draw lies in the half-open interval from 0 to 1 and
    the comparison with [eps] is strict: with [eps] at most 0 the loop never
    takes the random action, and with [eps] at least 1 it always does. *)
Theorem exploration_bounds (nb : notebook) (s : nat) (d : draws) :
  0 <= rand_explore d < 1 ->
  (eps nb <= 0 -> select_action nb s d = chosen_action (myAgent nb) s) /\
  (1 <= eps nb -> select_action nb s d = Ok (randint_action d)).
Proof.
  intros Hu. unfold select_action.
  destruct (Rltb (rand_explore d) (eps nb)) eqn:E.
  - apply Rltb_true in E. split; [intros H; lra | reflexivity].
  - apply Rltb_false in E. split; [reflexivity | intros H; lra].
Qed.

Lemma exploration_bounds_witness :
  0 <= rand_explore (sample_rng 0%Z) < 1 /\
  (eps notebook_init <= 0 ->
   select_action notebook_init 0 (sample_rng 0%Z)
   = chosen_action (myAgent notebook_init) 0).
Proof.
  split; [simpl; lra |].
  apply (exploration_bounds notebook_init 0 (sample_rng 0%Z)).
  simpl; lra.
Defined.

(** ** The best arm of a bandit *)

(** X15.  For one and the same draw, the arm with the smallest threshold of
    the current bandit (the arm the summary counts as right) pays [+1]
    whenever any other arm of that bandit would, and a reward [+1] stays
    [+1] for every larger draw. *)
Theorem best_arm_dominates (self : contextual_bandit) (best action : nat)
  (randn randn' : R) :
  bandit_wf self ->
  (state self < num_bandits self)%nat ->
  (action < num_actions self)%nat ->
  argmin (nth (state self) (bandits self) []) = Ok best ->
  pullArm self action randn = Ok 1%Z ->
  pullArm self best randn = Ok 1%Z /\
  (randn <= randn' -> pullArm self action randn' = Ok 1%Z).
Proof.
  intros Hwf Hs Ha Hbest Hpull.
  pose proof (has_shape_rows _ _ _ _ Hwf Hs) as Hlen.
  destruct (argmin_first_min (nth (state self) (bandits self) []))
    as (k & Hk & Hlt & Hmin & _).
  { intros E. rewrite E in Hlen. simpl in Hlen. lia. }
  assert (k = best) by congruence. subst k.
  rewrite Hlen in Hlt. specialize (Hmin action). rewrite Hlen in Hmin.
  specialize (Hmin Ha). fold (entry (bandits self) (state self) best) in Hmin.
  fold (entry (bandits self) (state self) action) in Hmin.
  unfold pullArm in *.
  rewrite (index2_entry _ _ _ _ _ Hwf Hs Ha) in *.
  rewrite (index2_entry _ _ _ _ _ Hwf Hs Hlt). cbn [bind] in *.
  destruct (Rltb (entry (bandits self) (state self) action) randn) eqn:E;
    [| discriminate].
  apply Rltb_true in E. split.
  - replace (Rltb (entry (bandits self) (state self) best) randn) with true
      by (symmetry; apply Rltb_true; lra).
    reflexivity.
  - intros Hle.
    replace (Rltb (entry (bandits self) (state self) action) randn') with true
      by (symmetry; apply Rltb_true; lra).
    reflexivity.
Qed.

Lemma best_arm_dominates_witness :
  bandit_wf contextual_bandit_init /\
  pullArm contextual_bandit_init 3 1 = Ok 1%Z.
Proof.
  assert (H0 : Rltb 0 1 = true) by (apply Rltb_true; lra).
  assert (Hpull : pullArm contextual_bandit_init 2 1 = Ok 1%Z)
    by (unfold pullArm, index2; simpl; rewrite H0; reflexivity).
  split; [exact bandit_wf_init |].
  apply (best_arm_dominates contextual_bandit_init 3 2 1 1 bandit_wf_init).
  - simpl; lia.
  - simpl; lia.
  - apply bandit_table_argmin.
  - exact Hpull.
Defined.
